(** * The keys module of nyx-modules-qemux86 (src/keys/keys.c)

    A shallow embedding of the key-event pipeline: the key code table
    [lookup_key], the non-blocking reader [read_input_event], the event
    allocator [keys_event_create], [keys_release_event] and the iterator
    [keys_get_event], together with the properties of the specification
    that concern them.

    Conventions of the embedding.
    - C integers ([int], [uint16_t], [int32_t]) are [Z]; every quantity the
      code computes stays far below the 32-bit limits (byte counts are at
      most [sizeof (InputEvent_t) * MAX_EVENTS]), so no wrap-around occurs.
    - A pointer to a heap block is a [positive] address, a possibly-NULL
      pointer an [option]: [None] is NULL.
    - The heap of [calloc]ed events is a finite map from addresses to
      [nyx_event_keys_t] records.
    - The operating system is a script: the outcome of the n-th call of
      [poll], [read] and [calloc]; the machine state counts the calls made.
    - A C function that can loop takes a [fuel] argument; [OutOfFuel] means
      "still running", and the theorems say how much fuel is enough. *)

From stdpp Require Import gmap list strings.
From Stdlib Require Import ZArith Lia.

Local Open Scope Z_scope.

(** ** Constants of the included headers *)

(** Key and event codes of linux/input-event-codes.h (kernel UAPI). *)
Definition EV_KEY : Z := 1.
Definition KEY_Q : Z := 16.
Definition KEY_W : Z := 17.
Definition KEY_E : Z := 18.
Definition KEY_LEFTSHIFT : Z := 42.
Definition KEY_HOME : Z := 102.
Definition KEY_END : Z := 107.
Definition KEY_MUTE : Z := 113.
Definition KEY_VOLUMEDOWN : Z := 114.
Definition KEY_VOLUMEUP : Z := 115.
Definition KEY_PAUSE : Z := 119.
Definition KEY_STOP : Z := 128.
Definition KEY_BACK : Z := 158.
Definition KEY_REWIND : Z := 168.
Definition KEY_HOMEPAGE : Z := 172.
Definition KEY_PLAY : Z := 207.
Definition KEY_FASTFORWARD : Z := 208.
Definition KEY_SEARCH : Z := 217.
Definition KEY_BRIGHTNESSDOWN : Z := 224.
Definition KEY_BRIGHTNESSUP : Z := 225.
Definition KEY_NEXT : Z := 407.
Definition KEY_PREVIOUS : Z := 412.

(** errno.h and poll.h. *)
Definition EINTR : Z := 4.
Definition POLLIN : Z := 1.

(** [#define MAX_EVENTS 64] *)
Definition MAX_EVENTS : Z := 64.

(** [nyx_key_type_t] and the members of [nyx_keys_custom_key_t] that the
    module uses (nyx/common/nyx_keys_common.h). *)
Inductive nyx_key_type_t : Set :=
| NYX_KEY_TYPE_STANDARD
| NYX_KEY_TYPE_CUSTOM.

Inductive nyx_keys_custom_key_t : Set :=
| NYX_KEYS_CUSTOM_KEY_HOME
| NYX_KEYS_CUSTOM_KEY_HOT
| NYX_KEYS_CUSTOM_KEY_BACK
| NYX_KEYS_CUSTOM_KEY_VOL_UP
| NYX_KEYS_CUSTOM_KEY_VOL_DOWN
| NYX_KEYS_CUSTOM_KEY_POWER_ON
| NYX_KEYS_CUSTOM_KEY_MEDIA_PLAY
| NYX_KEYS_CUSTOM_KEY_MEDIA_PAUSE
| NYX_KEYS_CUSTOM_KEY_MEDIA_STOP
| NYX_KEYS_CUSTOM_KEY_MEDIA_NEXT
| NYX_KEYS_CUSTOM_KEY_MEDIA_PREVIOUS
| NYX_KEYS_CUSTOM_KEY_SEARCH
| NYX_KEYS_CUSTOM_KEY_BRIGHTNESS_DOWN
| NYX_KEYS_CUSTOM_KEY_BRIGHTNESS_UP
| NYX_KEYS_CUSTOM_KEY_VOL_MUTE
| NYX_KEYS_CUSTOM_KEY_MEDIA_REWIND
| NYX_KEYS_CUSTOM_KEY_MEDIA_FASTFORWARD.

Inductive nyx_error_t : Set :=
| NYX_ERROR_NONE
| NYX_ERROR_INVALID_HANDLE
| NYX_ERROR_INVALID_VALUE
| NYX_ERROR_OUT_OF_MEMORY.

Definition key_type_eqb (a b : nyx_key_type_t) : bool :=
  match a, b with
  | NYX_KEY_TYPE_STANDARD, NYX_KEY_TYPE_STANDARD => true
  | NYX_KEY_TYPE_CUSTOM, NYX_KEY_TYPE_CUSTOM => true
  | _, _ => false
  end.

(** What the build fixes and the source file does not: the size in bytes of
    [InputEvent_t] (16 on 32-bit x86, 24 on x86-64), the integer value of
    each custom key enumerator, and the event type tag [NYX_EVENT_KEYS]. *)
Class nyx_abi : Type := {
  sizeof_InputEvent_t : positive;
  custom_key_value : nyx_keys_custom_key_t -> Z;
  NYX_EVENT_KEYS : Z
}.

(** ** Data *)

(** [struct InputEvent]; the timestamp is never read by the module. *)
Record InputEvent_t : Set := {
  time : Z;
  type : Z;    (* uint16_t *)
  code : Z;    (* uint16_t *)
  value : Z    (* int32_t *)
}.

(** [nyx_event_keys_t], the fields the module touches. *)
Record nyx_event_keys_t : Set := {
  parent_type : Z;               (* ((nyx_event_t * ) p)->type *)
  key_type : nyx_key_type_t;
  key : Z;
  key_is_press : bool;
  key_is_auto_repeat : bool
}.

Definition ptr : Set := positive.

(** [keys_device_t]; [_parent] belongs to the host framework. *)
Record keys_device_t : Set := {
  current_event_ptr : option ptr
}.

(** ** The key code table *)

Section Lookup.
Context `{abi : nyx_abi}.

(** [lookup_key]: the [switch] is a chain of comparisons (case labels are
    pairwise distinct), [*key_type_out_ptr] is passed in and returned. *)
Definition lookup_key (d : keys_device_t) (keyCode keyValue : Z)
    (key_type_out : nyx_key_type_t) : Z * nyx_key_type_t :=
  let custom k := (custom_key_value k, NYX_KEY_TYPE_CUSTOM) in
  let '(key, key_type_out) :=
    if keyCode =? KEY_Q then custom NYX_KEYS_CUSTOM_KEY_HOME
    else if (keyCode =? KEY_HOMEPAGE) || (keyCode =? KEY_W)
      then custom NYX_KEYS_CUSTOM_KEY_HOT
    else if (keyCode =? KEY_BACK) || (keyCode =? KEY_E)
      then custom NYX_KEYS_CUSTOM_KEY_BACK
    else if keyCode =? KEY_HOME then custom NYX_KEYS_CUSTOM_KEY_HOME
    else if keyCode =? KEY_VOLUMEUP then custom NYX_KEYS_CUSTOM_KEY_VOL_UP
    else if keyCode =? KEY_VOLUMEDOWN then custom NYX_KEYS_CUSTOM_KEY_VOL_DOWN
    else if keyCode =? KEY_END then custom NYX_KEYS_CUSTOM_KEY_POWER_ON
    else if keyCode =? KEY_PLAY then custom NYX_KEYS_CUSTOM_KEY_MEDIA_PLAY
    else if keyCode =? KEY_PAUSE then custom NYX_KEYS_CUSTOM_KEY_MEDIA_PAUSE
    else if keyCode =? KEY_STOP then custom NYX_KEYS_CUSTOM_KEY_MEDIA_STOP
    else if keyCode =? KEY_NEXT then custom NYX_KEYS_CUSTOM_KEY_MEDIA_NEXT
    else if keyCode =? KEY_PREVIOUS
      then custom NYX_KEYS_CUSTOM_KEY_MEDIA_PREVIOUS
    else if keyCode =? KEY_SEARCH then custom NYX_KEYS_CUSTOM_KEY_SEARCH
    else if keyCode =? KEY_BRIGHTNESSDOWN
      then custom NYX_KEYS_CUSTOM_KEY_BRIGHTNESS_DOWN
    else if keyCode =? KEY_BRIGHTNESSUP
      then custom NYX_KEYS_CUSTOM_KEY_BRIGHTNESS_UP
    else if keyCode =? KEY_MUTE then custom NYX_KEYS_CUSTOM_KEY_VOL_MUTE
    else if keyCode =? KEY_REWIND then custom NYX_KEYS_CUSTOM_KEY_MEDIA_REWIND
    else if keyCode =? KEY_FASTFORWARD
      then custom NYX_KEYS_CUSTOM_KEY_MEDIA_FASTFORWARD
    else (0, key_type_out) in
  if negb (key_type_eqb key_type_out NYX_KEY_TYPE_CUSTOM) then
    if keyCode =? KEY_LEFTSHIFT
    then (KEY_LEFTSHIFT, key_type_out)
    else (keyCode, key_type_out)
  else (key, key_type_out).

End Lookup.

(** The custom-key table as the specification lists it: raw code, semantic
    identifier. *)
Definition custom_key_table : list (Z * nyx_keys_custom_key_t) :=
  [ (KEY_HOME, NYX_KEYS_CUSTOM_KEY_HOME);
    (KEY_Q, NYX_KEYS_CUSTOM_KEY_HOME);
    (KEY_HOMEPAGE, NYX_KEYS_CUSTOM_KEY_HOT);
    (KEY_W, NYX_KEYS_CUSTOM_KEY_HOT);
    (KEY_BACK, NYX_KEYS_CUSTOM_KEY_BACK);
    (KEY_E, NYX_KEYS_CUSTOM_KEY_BACK);
    (KEY_VOLUMEUP, NYX_KEYS_CUSTOM_KEY_VOL_UP);
    (KEY_VOLUMEDOWN, NYX_KEYS_CUSTOM_KEY_VOL_DOWN);
    (KEY_END, NYX_KEYS_CUSTOM_KEY_POWER_ON);
    (KEY_PLAY, NYX_KEYS_CUSTOM_KEY_MEDIA_PLAY);
    (KEY_PAUSE, NYX_KEYS_CUSTOM_KEY_MEDIA_PAUSE);
    (KEY_STOP, NYX_KEYS_CUSTOM_KEY_MEDIA_STOP);
    (KEY_NEXT, NYX_KEYS_CUSTOM_KEY_MEDIA_NEXT);
    (KEY_PREVIOUS, NYX_KEYS_CUSTOM_KEY_MEDIA_PREVIOUS);
    (KEY_REWIND, NYX_KEYS_CUSTOM_KEY_MEDIA_REWIND);
    (KEY_FASTFORWARD, NYX_KEYS_CUSTOM_KEY_MEDIA_FASTFORWARD);
    (KEY_SEARCH, NYX_KEYS_CUSTOM_KEY_SEARCH);
    (KEY_BRIGHTNESSUP, NYX_KEYS_CUSTOM_KEY_BRIGHTNESS_UP);
    (KEY_BRIGHTNESSDOWN, NYX_KEYS_CUSTOM_KEY_BRIGHTNESS_DOWN);
    (KEY_MUTE, NYX_KEYS_CUSTOM_KEY_VOL_MUTE) ].

Definition custom_codes : list Z := custom_key_table.*1.

(** ** Outcomes of a C function *)

Inductive result (A : Type) : Type :=
| Returned (a : A)   (* the function returned [a] *)
| Aborted            (* an [assert] failed: [abort ()] *)
| Undefined          (* NULL or dangling pointer access, index out of range *)
| OutOfFuel.         (* the fuel ran out: the function is still running *)

Arguments Returned {A} a.
Arguments Aborted {A}.
Arguments Undefined {A}.
Arguments OutOfFuel {A}.

Definition bind {A B : Type} (r : result A) (k : A -> result B) : result B :=
  match r with
  | Returned a => k a
  | Aborted => Aborted
  | Undefined => Undefined
  | OutOfFuel => OutOfFuel
  end.

Notation "'let*' p := c 'in' k" := (bind c (fun p => k))
  (at level 10, p pattern, c at level 200, k at level 200).

(** ** The operating system as a script *)

(** [poll (fds, 1, 0)]: its return value and [fds[0].revents]. *)
Record poll_result : Set := {
  ret_val : Z;
  revents : Z
}.

(** [read (fd, buf, nbytes)]: either the source has whole records and
    [partial] bytes of a further record ready, of which at most [nbytes]
    bytes are transferred (nothing ready: [read] returns 0), or the call
    fails with -1 and sets [errno]. The bytes of the incomplete record
    land on the record behind the whole ones: [torn old] is what they make
    of the record [old] that was there (its first bytes are replaced; how
    that reads is a matter of the layout). *)
Inductive read_result : Set :=
| ReadData (recs : list InputEvent_t) (partial : Z)
    (torn : InputEvent_t -> InputEvent_t)
| ReadError (err : Z).

Record os_script : Type := {
  poll_script : nat -> poll_result;
  read_script : nat -> read_result;
  calloc_script : nat -> bool        (* does the n-th [calloc] succeed? *)
}.

(** ** Machine state *)

Record machine : Type := {
  raw_events : list InputEvent_t;      (* static raw_events[MAX_EVENTS] *)
  event_count : Z;                     (* static int event_count *)
  event_iter : Z;                      (* static int event_iter *)
  heap : gmap ptr nyx_event_keys_t;    (* live blocks of calloc *)
  errno : Z;
  polls_done : nat;
  reads_done : nat;
  callocs_done : nat;
  nyx_errors : nat;                    (* calls of nyx_error *)
  read_log : list InputEvent_t         (* ghost: the records read so far *)
}.

Definition set_raw_events (v : list InputEvent_t) (m : machine) : machine :=
  {| raw_events := v; event_count := event_count m;
     event_iter := event_iter m; heap := heap m; errno := errno m;
     polls_done := polls_done m; reads_done := reads_done m;
     callocs_done := callocs_done m; nyx_errors := nyx_errors m;
     read_log := read_log m |}.

Definition set_event_count (v : Z) (m : machine) : machine :=
  {| raw_events := raw_events m; event_count := v;
     event_iter := event_iter m; heap := heap m; errno := errno m;
     polls_done := polls_done m; reads_done := reads_done m;
     callocs_done := callocs_done m; nyx_errors := nyx_errors m;
     read_log := read_log m |}.

Definition set_event_iter (v : Z) (m : machine) : machine :=
  {| raw_events := raw_events m; event_count := event_count m;
     event_iter := v; heap := heap m; errno := errno m;
     polls_done := polls_done m; reads_done := reads_done m;
     callocs_done := callocs_done m; nyx_errors := nyx_errors m;
     read_log := read_log m |}.

Definition set_heap (v : gmap ptr nyx_event_keys_t) (m : machine) : machine :=
  {| raw_events := raw_events m; event_count := event_count m;
     event_iter := event_iter m; heap := v; errno := errno m;
     polls_done := polls_done m; reads_done := reads_done m;
     callocs_done := callocs_done m; nyx_errors := nyx_errors m;
     read_log := read_log m |}.

Definition count_poll (m : machine) : machine :=
  {| raw_events := raw_events m; event_count := event_count m;
     event_iter := event_iter m; heap := heap m; errno := errno m;
     polls_done := S (polls_done m); reads_done := reads_done m;
     callocs_done := callocs_done m; nyx_errors := nyx_errors m;
     read_log := read_log m |}.

(** A [read] was made; [err] is the new [errno], [got] the records stored. *)
Definition count_read (err : Z) (got : list InputEvent_t) (m : machine)
    : machine :=
  {| raw_events := raw_events m; event_count := event_count m;
     event_iter := event_iter m; heap := heap m; errno := err;
     polls_done := polls_done m; reads_done := S (reads_done m);
     callocs_done := callocs_done m; nyx_errors := nyx_errors m;
     read_log := read_log m ++ got |}.

Definition count_calloc (m : machine) : machine :=
  {| raw_events := raw_events m; event_count := event_count m;
     event_iter := event_iter m; heap := heap m; errno := errno m;
     polls_done := polls_done m; reads_done := reads_done m;
     callocs_done := S (callocs_done m); nyx_errors := nyx_errors m;
     read_log := read_log m |}.

Definition nyx_error (m : machine) : machine :=
  {| raw_events := raw_events m; event_count := event_count m;
     event_iter := event_iter m; heap := heap m; errno := errno m;
     polls_done := polls_done m; reads_done := reads_done m;
     callocs_done := callocs_done m; nyx_errors := S (nyx_errors m);
     read_log := read_log m |}.

(** [a[i]] for a C array held as a list; [None] outside the array. *)
Definition array_get {A : Type} (a : list A) (i : Z) : option A :=
  if i <? 0 then None else a !! Z.to_nat i.

Definition zero_InputEvent : InputEvent_t :=
  {| time := 0; type := 0; code := 0; value := 0 |}.

(** A block as [calloc] hands it out: all bytes zero. The class field
    reads as the enumerator of value 0, taken to be Standard; the code
    stores the class before it reads it or hands the event out. *)
Definition zero_event : nyx_event_keys_t :=
  {| parent_type := 0; key_type := NYX_KEY_TYPE_STANDARD; key := 0;
     key_is_press := false; key_is_auto_repeat := false |}.

(** The statics at program start and an empty heap. *)
Definition machine_init : machine :=
  {| raw_events := replicate (Z.to_nat MAX_EVENTS) zero_InputEvent;
     event_count := 0; event_iter := 0; heap := ∅; errno := 0;
     polls_done := 0; reads_done := 0; callocs_done := 0; nyx_errors := 0;
     read_log := [] |}.

(** The device as [nyx_module_open] leaves it ([calloc]ed: all zero). *)
Definition device_init : keys_device_t := {| current_event_ptr := None |}.

(** The array [buf] after [read] stored the whole records [got] at its
    start and, when [tail] is not 0, [tail] bytes of a further record
    behind them. [None] when the bytes do not fit into the array. *)
Definition stored (got : list InputEvent_t) (tail : Z)
    (torn : InputEvent_t -> InputEvent_t) (buf : list InputEvent_t)
    : option (list InputEvent_t) :=
  if tail =? 0 then
    if decide (length got ≤ length buf)%nat
    then Some (got ++ drop (length got) buf)
    else None
  else
    match buf !! length got with
    | Some old => Some (got ++ torn old :: drop (S (length got)) buf)
    | None => None
    end.

(** ** The functions of keys.c *)

Section Keys.
Context `{abi : nyx_abi}.
Variable os : os_script.

Definition record_size : Z := Z.pos sizeof_InputEvent_t.

Definition sys_poll (m : machine) : poll_result * machine :=
  (poll_script os (polls_done m), count_poll m).

(** [read (fd, buf, nbytes)] with [0 <= nbytes]: all [rd] bytes are
    stored at the start of [buf], the whole records and the bytes of an
    incomplete one. Storing outside the array is undefined. *)
Definition sys_read (nbytes : Z) (buf : list InputEvent_t) (m : machine)
    : result (Z * list InputEvent_t * machine) :=
  match read_script os (reads_done m) with
  | ReadError err => Returned (-1, buf, count_read err [] m)
  | ReadData recs partial torn =>
      let ready :=
        record_size * Z.of_nat (length recs) + partial mod record_size in
      let rd := Z.min nbytes ready in
      let got := take (Z.to_nat (rd / record_size)) recs in
      match stored got (Z.max 0 rd mod record_size) torn buf with
      | Some buf => Returned (rd, buf, count_read (errno m) got m)
      | None => Undefined
      end
  end.

(** The [for (;;)] loop of [read_input_event]. *)
Fixpoint read_loop (fuel : nat) (buf : list InputEvent_t)
    (maxEvents numEvents : Z) (m : machine)
    : result (Z * option (list InputEvent_t) * machine) :=
  match fuel with
  | O => OutOfFuel
  | S fuel =>
      let* (rd, buf, m) := sys_read (record_size * maxEvents) buf m in
      if 0 <? rd then
        Returned (numEvents + rd / record_size, Some buf, m)
      else if (rd <? 0) && negb (errno m =? EINTR) then
        Returned (-1, Some buf, nyx_error m)
      else read_loop fuel buf maxEvents numEvents m
  end.

(** [read_input_event]: returns the count and the buffer [pEvents]
    points to. *)
Definition read_input_event (fuel : nat)
    (pEvents : option (list InputEvent_t)) (maxEvents : Z) (m : machine)
    : result (Z * option (list InputEvent_t) * machine) :=
  match pEvents with
  | None => Returned (-1, None, m)
  | Some buf =>
      let '(fds, m) := sys_poll m in
      if ret_val fds <=? 0 then Returned (0, pEvents, m)
      else if negb (Z.land (revents fds) POLLIN =? 0) then
        read_loop fuel buf maxEvents 0 m
      else Returned (0, pEvents, m)
  end.

(** [calloc (sizeof (nyx_event_keys_t), 1)]: NULL, or a zeroed block at
    an address that is not live (which one is immaterial below). *)
Definition calloc_event (m : machine) : option ptr * machine :=
  if calloc_script os (callocs_done m) then
    let p := fresh (dom (heap m)) in
    (Some p, set_heap (<[p := zero_event]> (heap m)) (count_calloc m))
  else (None, count_calloc m).

Definition set_parent_type (t : Z) (ev : nyx_event_keys_t)
    : nyx_event_keys_t :=
  {| parent_type := t; key_type := key_type ev; key := key ev;
     key_is_press := key_is_press ev;
     key_is_auto_repeat := key_is_auto_repeat ev |}.

Definition keys_event_create (m : machine) : option ptr * machine :=
  let '(event_ptr, m) := calloc_event m in
  match event_ptr with
  | None => (event_ptr, m)
  | Some p =>
      (event_ptr,
       set_heap (alter (set_parent_type NYX_EVENT_KEYS) p (heap m)) m)
  end.

(** [free (a)] of a block that is not live is undefined. *)
Definition keys_release_event (d : option keys_device_t) (e : option ptr)
    (m : machine) : result (nyx_error_t * machine) :=
  match d with
  | None => Returned (NYX_ERROR_INVALID_HANDLE, m)
  | Some _ =>
      match e with
      | None => Returned (NYX_ERROR_INVALID_HANDLE, m)
      | Some a =>
          match heap m !! a with
          | None => Undefined
          | Some _ =>
              Returned (NYX_ERROR_NONE, set_heap (delete a (heap m)) m)
          end
      end
  end.

(** The [for (; event_iter < event_count;)] loop of [keys_get_event];
    [e] is the content of the caller's cell [*e] (the address [e] itself
    is taken to be valid). The class is preset to Standard in the block
    and [lookup_key] gets the address of that field. *)
Fixpoint keys_get_event_loop (fuel : nat) (keys_device : keys_device_t)
    (e : option ptr) (m : machine)
    : result (keys_device_t * option ptr * machine) :=
  match fuel with
  | O => OutOfFuel
  | S fuel =>
      if event_iter m <? event_count m then
        match array_get (raw_events m) (event_iter m) with
        | None => Undefined
        | Some input_event =>
            let m := set_event_iter (event_iter m + 1) m in
            if type input_event =? EV_KEY then
              match current_event_ptr keys_device with
              | None => Undefined
              | Some p =>
                  match heap m !! p with
                  | None => Undefined
                  | Some ev =>
                      let '(k, kt) :=
                        lookup_key keys_device (code input_event)
                          (value input_event) NYX_KEY_TYPE_STANDARD in
                      let ev :=
                        {| parent_type := parent_type ev;
                           key_type := kt;
                           key := k;
                           key_is_press :=
                             if value input_event =? 0 then false else true;
                           key_is_auto_repeat :=
                             if 1 <? value input_event then true else false
                        |} in
                      let m := set_heap (<[p := ev]> (heap m)) m in
                      (* *e = current_event_ptr; current_event_ptr = NULL;
                         if (NULL != *e) break; *)
                      let e := Some p in
                      let keys_device := {| current_event_ptr := None |} in
                      match e with
                      | Some _ => Returned (keys_device, e, m)
                      | None => keys_get_event_loop fuel keys_device e m
                      end
                  end
              end
            else keys_get_event_loop fuel keys_device e m
        end
      else Returned (keys_device, e, m)
  end.

(** [keys_get_event]: the refill when the cursor is at 0, the allocation
    when the slot is empty, the loop, the cursor reset. A NULL [d] is
    dereferenced; [assert] is compiled in ([NDEBUG] is not defined by the
    source). *)
Definition keys_get_event (fuel : nat) (d : option keys_device_t)
    (e : option ptr) (m : machine)
    : result (nyx_error_t * keys_device_t * option ptr * machine) :=
  match d with
  | None => Undefined
  | Some keys_device =>
      let* (keys_device, m) :=
        (if event_iter m =? 0 then
           let* (n, buf, m) :=
             read_input_event fuel (Some (raw_events m)) MAX_EVENTS m in
           Returned
             ({| current_event_ptr := None |},
              set_event_count n
                (set_raw_events (default (raw_events m) buf) m))
         else Returned (keys_device, m)) in
      let* (keys_device, m) :=
        (match current_event_ptr keys_device with
         | None =>
             let '(p, m) := keys_event_create m in
             match p with
             | None => Aborted
             | Some _ => Returned ({| current_event_ptr := p |}, m)
             end
         | Some _ => Returned (keys_device, m)
         end) in
      let* (keys_device, e, m) := keys_get_event_loop fuel keys_device e m in
      let m :=
        if event_count m <=? event_iter m then set_event_iter 0 m else m in
      Returned (NYX_ERROR_NONE, keys_device, e, m)
  end.

(** ** A client of the module *)

(** What a caller does: it stores NULL in its cell, calls
    [keys_get_event] and, when the cell is no longer NULL, reads the
    event; it may release any event pointer it likes. *)
Inductive request : Set :=
| Get
| Release (e : option ptr).

Record session : Type := {
  dev : keys_device_t;
  mach : machine;
  delivered : list nyx_event_keys_t;   (* the events read, in order *)
  held : list ptr                      (* returned and not yet released *)
}.

Definition session_init : session :=
  {| dev := device_init; mach := machine_init; delivered := []; held := [] |}.

Definition serve (fuel : nat) (r : request) (s : session) : result session :=
  match r with
  | Get =>
      let* (_, d, e, m) := keys_get_event fuel (Some (dev s)) None (mach s) in
      match e with
      | None =>
          Returned {| dev := d; mach := m; delivered := delivered s;
                      held := held s |}
      | Some p =>
          match heap m !! p with
          | None => Undefined
          | Some ev =>
              Returned {| dev := d; mach := m;
                          delivered := delivered s ++ [ev];
                          held := held s ++ [p] |}
          end
      end
  | Release e =>
      let* (_, m) := keys_release_event (Some (dev s)) e (mach s) in
      Returned {| dev := dev s; mach := m; delivered := delivered s;
                  held := match e with
                          | Some p => filter (λ q, q ≠ p) (held s)
                          | None => held s
                          end |}
  end.

Fixpoint run (fuel : nat) (rs : list request) (s : session)
    : result session :=
  match rs with
  | [] => Returned s
  | r :: rs => let* s := serve fuel r s in run fuel rs s
  end.

End Keys.

(** ** Opening and closing the module *)

(** The method slots of the host framework that the module fills
    (nyx/module/nyx_module.h). *)
Inductive nyx_method : Set :=
| NYX_GET_EVENT_SOURCE_MODULE_METHOD
| NYX_GET_EVENT_MODULE_METHOD
| NYX_RELEASE_EVENT_MODULE_METHOD.

(** What the build and the file system fix: the macro
    [KEYPAD_INPUT_DEVICE] (a path, when it is defined) and the value the
    n-th call of [open] returns (a descriptor, or -1). *)
Record keys_host : Type := {
  KEYPAD_INPUT_DEVICE : option string;
  open_script : nat -> Z
}.

(** The whole module: the state of the event pipeline, the global
    [keypad_event_fd], the live [keys_device_t] blocks (a second typed
    view of the heap: addresses are compared within a view only) and what
    [nyx_module_register_method] was told. *)
Record module_state : Type := {
  core : machine;
  keypad_event_fd : Z;
  devices : gmap ptr keys_device_t;
  methods : list (Z * ptr * nyx_method * string);
  opens_done : nat
}.

Definition set_core (v : machine) (w : module_state) : module_state :=
  {| core := v; keypad_event_fd := keypad_event_fd w;
     devices := devices w; methods := methods w;
     opens_done := opens_done w |}.

Definition set_devices (v : gmap ptr keys_device_t) (w : module_state)
    : module_state :=
  {| core := core w; keypad_event_fd := keypad_event_fd w;
     devices := v; methods := methods w; opens_done := opens_done w |}.

(** [keypad_event_fd = open (...)]. *)
Definition count_open (fd : Z) (w : module_state) : module_state :=
  {| core := core w; keypad_event_fd := fd; devices := devices w;
     methods := methods w; opens_done := S (opens_done w) |}.

Definition nyx_module_register_method (i : Z) (d : ptr) (method : nyx_method)
    (symbol : string) (w : module_state) : module_state :=
  {| core := core w; keypad_event_fd := keypad_event_fd w;
     devices := devices w;
     methods := methods w ++ [(i, d, method, symbol)];
     opens_done := opens_done w |}.

(** The module before anything is opened: statics and globals zero. *)
Definition module_init : module_state :=
  {| core := machine_init; keypad_event_fd := 0; devices := ∅;
     methods := []; opens_done := 0 |}.

Section Lifecycle.
Context `{abi : nyx_abi}.
Variable os : os_script.
Variable host : keys_host.

(** [init_keypad]: the descriptor is stored before it is tested. *)
Definition init_keypad (w : module_state) : Z * module_state :=
  match KEYPAD_INPUT_DEVICE host with
  | Some _ =>
      let w := count_open (open_script host (opens_done w)) w in
      if keypad_event_fd w <? 0 then (-1, set_core (nyx_error (core w)) w)
      else (0, w)
  | None => (-1, w)
  end.

(** [calloc (sizeof (keys_device_t), 1)]. *)
Definition calloc_device (w : module_state) : option ptr * module_state :=
  if calloc_script os (callocs_done (core w)) then
    let a := fresh (dom (devices w)) in
    (Some a,
     set_devices (<[a := device_init]> (devices w))
       (set_core (count_calloc (core w)) w))
  else (None, set_core (count_calloc (core w)) w).

(** [nyx_module_open]; [d] is NULL or the caller's cell with its content,
    which is returned with the error code. *)
Definition nyx_module_open (i : Z) (d : option (option ptr))
    (w : module_state) : nyx_error_t * option (option ptr) * module_state :=
  match d with
  | None => (NYX_ERROR_INVALID_VALUE, d, set_core (nyx_error (core w)) w)
  | Some _ =>
      let '(keys_device, w) := calloc_device w in
      match keys_device with
      | None =>
          (NYX_ERROR_OUT_OF_MEMORY, d, set_core (nyx_error (core w)) w)
      | Some a =>
          let '(_, w) := init_keypad w in
          let w :=
            nyx_module_register_method i a NYX_GET_EVENT_SOURCE_MODULE_METHOD
              "keys_get_event_source" w in
          let w :=
            nyx_module_register_method i a NYX_GET_EVENT_MODULE_METHOD
              "keys_get_event" w in
          let w :=
            nyx_module_register_method i a NYX_RELEASE_EVENT_MODULE_METHOD
              "keys_release_event" w in
          (NYX_ERROR_NONE, Some keys_device, w)
      end
  end.

(** [keys_get_event_source]; [f] is NULL or the caller's cell. The device
    is tested against NULL and not looked at. *)
Definition keys_get_event_source (d : option ptr) (f : option Z)
    (w : module_state) : nyx_error_t * option Z :=
  match d with
  | None => (NYX_ERROR_INVALID_HANDLE, f)
  | Some _ =>
      match f with
      | None => (NYX_ERROR_INVALID_VALUE, f)
      | Some _ => (NYX_ERROR_NONE, Some (keypad_event_fd w))
      end
  end.

(** [nyx_module_close]: the event in the slot is released, the device
    block freed. A handle that is not a live device is undefined. *)
Definition nyx_module_close (d : option ptr) (w : module_state)
    : result (nyx_error_t * module_state) :=
  match d with
  | None => Returned (NYX_ERROR_INVALID_HANDLE, w)
  | Some a =>
      match devices w !! a with
      | None => Undefined
      | Some keys_device =>
          let* w :=
            (match current_event_ptr keys_device with
             | Some p =>
                 let* (_, m) :=
                   keys_release_event (Some keys_device) (Some p) (core w) in
                 Returned (set_core m w)
             | None => Returned w
             end) in
          Returned (NYX_ERROR_NONE, set_devices (delete a (devices w)) w)
      end
  end.

(** [keys_get_event] and [keys_release_event] called through a device
    handle: the device block is read from and written back to the heap.
    [keys_release_event] tests its handle against NULL only. *)
Definition get_event (fuel : nat) (d : option ptr) (e : option ptr)
    (w : module_state) : result (nyx_error_t * option ptr * module_state) :=
  match d with
  | None => Undefined
  | Some a =>
      match devices w !! a with
      | None => Undefined
      | Some keys_device =>
          let* (err, keys_device, e, m) :=
            keys_get_event os fuel (Some keys_device) e (core w) in
          Returned
            (err, e,
             set_devices (<[a := keys_device]> (devices w)) (set_core m w))
      end
  end.

Definition release_event (d : option ptr) (e : option ptr)
    (w : module_state) : result (nyx_error_t * module_state) :=
  let* (err, m) :=
    keys_release_event (d ≫= λ _, Some device_init) e (core w) in
  Returned (err, set_core m w).

End Lifecycle.

(** ** Concrete platforms and scripts for the examples *)

(** 32-bit x86 record size; the enumerators numbered from 1001 in the
    order listed above (the real values are those of the nyx headers). *)
Definition sample_custom_key_value (k : nyx_keys_custom_key_t) : Z :=
  match k with
  | NYX_KEYS_CUSTOM_KEY_HOME => 1001
  | NYX_KEYS_CUSTOM_KEY_HOT => 1002
  | NYX_KEYS_CUSTOM_KEY_BACK => 1003
  | NYX_KEYS_CUSTOM_KEY_VOL_UP => 1004
  | NYX_KEYS_CUSTOM_KEY_VOL_DOWN => 1005
  | NYX_KEYS_CUSTOM_KEY_POWER_ON => 1006
  | NYX_KEYS_CUSTOM_KEY_MEDIA_PLAY => 1007
  | NYX_KEYS_CUSTOM_KEY_MEDIA_PAUSE => 1008
  | NYX_KEYS_CUSTOM_KEY_MEDIA_STOP => 1009
  | NYX_KEYS_CUSTOM_KEY_MEDIA_NEXT => 1010
  | NYX_KEYS_CUSTOM_KEY_MEDIA_PREVIOUS => 1011
  | NYX_KEYS_CUSTOM_KEY_SEARCH => 1012
  | NYX_KEYS_CUSTOM_KEY_BRIGHTNESS_DOWN => 1013
  | NYX_KEYS_CUSTOM_KEY_BRIGHTNESS_UP => 1014
  | NYX_KEYS_CUSTOM_KEY_VOL_MUTE => 1015
  | NYX_KEYS_CUSTOM_KEY_MEDIA_REWIND => 1016
  | NYX_KEYS_CUSTOM_KEY_MEDIA_FASTFORWARD => 1017
  end.

Definition sample_abi : nyx_abi :=
  {| sizeof_InputEvent_t := 16;
     custom_key_value := sample_custom_key_value;
     NYX_EVENT_KEYS := 7 |}.

Definition ready : poll_result := {| ret_val := 1; revents := POLLIN |}.
Definition not_ready : poll_result := {| ret_val := 0; revents := 0 |}.

(** A script from finite lists; past their ends the descriptor is not
    ready, [read] returns 0 bytes and [calloc] succeeds. *)
Definition script_of (ps : list poll_result) (rs : list read_result)
    (cs : list bool) : os_script :=
  {| poll_script n := nth n ps not_ready;
     read_script n := nth n rs (ReadData [] 0 id);
     calloc_script n := nth n cs true |}.

Definition key_record (c v : Z) : InputEvent_t :=
  {| time := 0; type := EV_KEY; code := c; value := v |}.

(** An [EV_SYN] report, as the kernel sends after each key record. *)
Definition syn_record : InputEvent_t :=
  {| time := 0; type := 0; code := 0; value := 0 |}.

(** The first bytes of a record, all within its time stamp, stored over
    the record [old]: it reads as [old] with the time stamp [t]. *)
Definition torn_time (t : Z) (old : InputEvent_t) : InputEvent_t :=
  {| time := t; type := type old; code := code old; value := value old |}.

(** Scripts. Each starts with the descriptor readable unless said
    otherwise; [30] is KEY_A, [5] is EIO. *)
Definition os_volume : os_script :=
  script_of [ready]
    [ReadData [key_record KEY_VOLUMEUP 1; key_record KEY_VOLUMEUP 0] 0 id]
    [].

Definition os_skip : os_script :=
  script_of [ready] [ReadData [syn_record; key_record 30 1] 0 id] [].

Definition os_repeat : os_script :=
  script_of [ready] [ReadData [key_record KEY_HOME 3] 0 id] [].

Definition os_negative : os_script :=
  script_of [ready] [ReadData [key_record 30 (-1)] 0 id] [].

Definition os_interrupted : os_script :=
  script_of [ready]
    [ReadError EINTR; ReadData [key_record KEY_VOLUMEUP 1] 7 (torn_time 1)]
    [].

Definition os_read_error : os_script :=
  script_of [ready] [ReadError 5] [].

Definition os_no_memory : os_script := script_of [] [] [false].

Definition os_read_error_no_memory : os_script :=
  script_of [ready] [ReadError 5] [false].

Definition os_two_batches : os_script :=
  script_of [ready; ready]
    [ReadData [key_record KEY_VOLUMEUP 1; syn_record;
               key_record KEY_VOLUMEUP 0; syn_record] 0 id;
     ReadData [key_record KEY_HOME 1; syn_record] 0 id] [].

(** The first call of a program under a script, and what it returns. *)
Definition first_call (os : os_script) (fuel : nat)
    : result (nyx_error_t * keys_device_t * option ptr * machine) :=
  keys_get_event (abi := sample_abi) os fuel (Some device_init) None
    machine_init.

Definition returned_device
    (r : result (nyx_error_t * keys_device_t * option ptr * machine))
    : keys_device_t :=
  match r with Returned (_, d, _, _) => d | _ => device_init end.

Definition returned_machine
    (r : result (nyx_error_t * keys_device_t * option ptr * machine))
    : machine :=
  match r with Returned (_, _, _, m) => m | _ => machine_init end.

Definition returned_session (r : result session) : session :=
  match r with Returned s => s | _ => session_init end.

(** Further scripts and hosts: a key record followed by its
    synchronisation report; a readable descriptor at end of file; a
    source that is never ready. The device path is an example. *)
Definition os_key_syn : os_script :=
  script_of [ready] [ReadData [key_record 30 1; syn_record] 0 id] [].

Definition os_end_of_file : os_script := script_of [ready] [] [].

Definition os_idle : os_script := script_of [] [] [].

Definition host_event : keys_host :=
  {| KEYPAD_INPUT_DEVICE := Some "/dev/input/event1";
     open_script := λ _, 3 |}.

Definition host_missing : keys_host :=
  {| KEYPAD_INPUT_DEVICE := Some "/dev/input/event1";
     open_script := λ _, -1 |}.

(** States for the examples, evaluated once: after the first call of a
    program under a script. *)
Definition idle_device_1 : keys_device_t :=
  Eval vm_compute in returned_device (first_call os_idle 1).

Definition idle_machine_1 : machine :=
  Eval vm_compute in returned_machine (first_call os_idle 1).

Definition idle_device_2 : keys_device_t :=
  Eval vm_compute in
    returned_device
      (keys_get_event (abi := sample_abi) os_idle 1 (Some idle_device_1)
         None idle_machine_1).

Definition idle_machine_2 : machine :=
  Eval vm_compute in
    returned_machine
      (keys_get_event (abi := sample_abi) os_idle 1 (Some idle_device_1)
         None idle_machine_1).

Definition volume_device_1 : keys_device_t :=
  Eval vm_compute in returned_device (first_call os_volume 5).

Definition volume_machine_1 : machine :=
  Eval vm_compute in returned_machine (first_call os_volume 5).

Definition key_syn_device_1 : keys_device_t :=
  Eval vm_compute in returned_device (first_call os_key_syn 5).

Definition key_syn_machine_1 : machine :=
  Eval vm_compute in returned_machine (first_call os_key_syn 5).

Definition key_syn_device_2 : keys_device_t :=
  Eval vm_compute in
    returned_device
      (keys_get_event (abi := sample_abi) os_key_syn 5
         (Some key_syn_device_1) None key_syn_machine_1).

Definition key_syn_machine_2 : machine :=
  Eval vm_compute in
    returned_machine
      (keys_get_event (abi := sample_abi) os_key_syn 5
         (Some key_syn_device_1) None key_syn_machine_1).

Definition two_batches_session : session :=
  Eval vm_compute in
    returned_session
      (run (abi := sample_abi) os_two_batches 5
         [Get; Get; Release (Some 1%positive); Get; Get] session_init).

Definition interrupted_machine : machine :=
  Eval vm_compute in
    match read_input_event (abi := sample_abi) os_interrupted 2
            (Some [syn_record; syn_record]) MAX_EVENTS machine_init with
    | Returned (_, _, m) => m
    | _ => machine_init
    end.

(** The module after a device was opened on it (its handle is 1), after
    one call on that device, after the release of what the call returned,
    after closing the device right after the call, and after opening a
    device again. *)
Definition module_of {A : Type} (r : result (A * module_state))
    : module_state :=
  match r with Returned (_, w) => w | _ => module_init end.

Definition volume_opened : module_state :=
  Eval vm_compute in
    (nyx_module_open os_volume host_event 1 (Some None) module_init).2.

Definition volume_asked : module_state :=
  Eval vm_compute in
    module_of
      (get_event (abi := sample_abi) os_volume 5 (Some 1%positive) None
         volume_opened).

Definition volume_released : module_state :=
  Eval vm_compute in
    module_of (release_event (Some 1%positive) (Some 1%positive) volume_asked).

Definition volume_closed : module_state :=
  Eval vm_compute in
    module_of (nyx_module_close (Some 1%positive) volume_asked).

Definition volume_reopened : module_state :=
  Eval vm_compute in
    (nyx_module_open os_volume host_event 2 (Some None) volume_closed).2.

Definition volume_continued : module_state :=
  Eval vm_compute in
    module_of
      (get_event (abi := sample_abi) os_volume 5 (Some 1%positive) None
         volume_reopened).

(** The module after an open that found no memory for the device. *)
Definition no_memory_module : module_state :=
  Eval vm_compute in
    (nyx_module_open os_no_memory host_event 1 (Some None) module_init).2.

(** ** Specification-side notions *)

Definition is_key (r : InputEvent_t) : Prop := type r = EV_KEY.

#[global] Instance is_key_dec (r : InputEvent_t) : Decision (is_key r).
Proof. unfold is_key. apply _. Defined.

(** The records of the current batch not yet visited by the cursor. *)
Definition unread (m : machine) : list InputEvent_t :=
  drop (Z.to_nat (event_iter m))
       (take (Z.to_nat (event_count m)) (raw_events m)).

(** The same between two calls, when a cursor at 0 means "batch consumed". *)
Definition pending (m : machine) : list InputEvent_t :=
  if event_iter m =? 0 then [] else unread m.

(** The event the specification expects for a key record. *)
Definition event_of `{abi : nyx_abi} (r : InputEvent_t) : nyx_event_keys_t :=
  {| parent_type := NYX_EVENT_KEYS;
     key_type := (lookup_key device_init (code r) (value r)
                    NYX_KEY_TYPE_STANDARD).2;
     key := (lookup_key device_init (code r) (value r)
               NYX_KEY_TYPE_STANDARD).1;
     key_is_press := negb (value r =? 0);
     key_is_auto_repeat := 1 <? value r |}.

(** The state between two calls of the module. *)
Record Inv (d : keys_device_t) (m : machine) : Prop := {
  inv_iter_nonneg : 0 <= event_iter m;
  inv_iter_count : event_iter m ≠ 0 → event_iter m < event_count m;
  inv_slot : event_iter m ≠ 0 → current_event_ptr d = None;
  inv_count : event_count m <= Z.of_nat (length (raw_events m));
  inv_length : length (raw_events m) = Z.to_nat MAX_EVENTS
}.

(** The value [read] returns for a request of [nbytes] bytes. *)
Definition read_returns `{abi : nyx_abi} (nbytes : Z) (r : read_result) : Z :=
  match r with
  | ReadError _ => -1
  | ReadData recs partial _ =>
      Z.min nbytes
        (record_size * Z.of_nat (length recs) + partial mod record_size)
  end.

(** The outcomes after which the loop of [read_input_event] reads again. *)
Definition retried `{abi : nyx_abi} (nbytes : Z) (r : read_result) : bool :=
  match r with
  | ReadError err => err =? EINTR
  | ReadData _ _ _ => read_returns nbytes r <=? 0
  end.

(** From the state [m] on, [k] reads are retried and the next one is not. *)
Definition settles `{abi : nyx_abi} (os : os_script) (nbytes : Z)
    (m : machine) (k : nat) : Prop :=
  (∀ j, (j < k)%nat →
        retried nbytes (read_script os (reads_done m + j)) = true) ∧
  retried nbytes (read_script os (reads_done m + k)) = false.

(** From the state [m] on, the next [k] reads are interrupted (EINTR). *)
Definition interrupted (os : os_script) (m : machine) (k : nat) : Prop :=
  ∀ j, (j < k)%nat → read_script os (reads_done m + j) = ReadError EINTR.

(** What a call of the reader leaves behind: the statics other than the
    buffer, the heap and the allocation count are untouched; the records
    stored, [got], are appended to the log and overwrite the front of
    the buffer, which keeps its length and, from the second record behind
    them on, its content; the count is their number, or -1 with nothing
    stored. *)
Record read_post (buf : list InputEvent_t) (maxEvents : Z) (m : machine)
    (n : Z) (b : option (list InputEvent_t)) (m' : machine)
    (got : list InputEvent_t) : Prop := {
  rp_buf :
    ∃ buf', b = Some buf' ∧ length buf' = length buf ∧
            take (length got) buf' = got ∧
            drop (S (length got)) buf' = drop (S (length got)) buf;
  rp_log : read_log m' = read_log m ++ got;
  rp_count : n = Z.of_nat (length got) ∨ (n = -1 ∧ got = []);
  rp_max : Z.of_nat (length got) <= Z.max 0 maxEvents;
  rp_raw : raw_events m' = raw_events m;
  rp_ecount : event_count m' = event_count m;
  rp_iter : event_iter m' = event_iter m;
  rp_heap : heap m' = heap m;
  rp_callocs : callocs_done m' = callocs_done m
}.

(** Two states that differ only in the number of reads made and in
    [errno]. *)
Record reads_apart (m m' : machine) (k : nat) : Prop := {
  ra_reads : reads_done m' = (reads_done m + k)%nat;
  ra_log : read_log m' = read_log m;
  ra_raw : raw_events m' = raw_events m;
  ra_count : event_count m' = event_count m;
  ra_iter : event_iter m' = event_iter m;
  ra_heap : heap m' = heap m;
  ra_polls : polls_done m' = polls_done m;
  ra_callocs : callocs_done m' = callocs_done m;
  ra_errors : nyx_errors m' = nyx_errors m
}.

(** The loop and the cursor reset that follows it leave the operating
    system's side of the state alone. *)
Record os_same (m m' : machine) : Prop := {
  os_log : read_log m' = read_log m;
  os_polls : polls_done m' = polls_done m;
  os_reads : reads_done m' = reads_done m;
  os_callocs : callocs_done m' = callocs_done m;
  os_errors : nyx_errors m' = nyx_errors m
}.

Definition reset_cursor (m : machine) : machine :=
  if event_count m <=? event_iter m then set_event_iter 0 m else m.

(** What a returned call of [keys_get_event] has done. [got] are the
    records read by this call; the event block is the fresh address [p]. *)
Record get_post `{abi : nyx_abi} (d : keys_device_t) (e : option ptr)
    (m : machine) (d' : keys_device_t) (e' : option ptr) (m' : machine)
    (got : list InputEvent_t) : Prop := {
  gp_inv : Inv d' m';
  gp_log : read_log m' = read_log m ++ got;
  gp_refill : event_iter m = 0 → polls_done m' = S (polls_done m);
  gp_iterating :
    event_iter m ≠ 0 →
    got = [] ∧ polls_done m' = polls_done m ∧ reads_done m' = reads_done m;
  gp_callocs : callocs_done m' = S (callocs_done m);
  gp_event :
    let p := fresh (dom (heap m)) in
    match list_find is_key (pending m ++ got) with
    | Some (i, r) =>
        e' = Some p ∧ current_event_ptr d' = None ∧
        heap m' = <[p := event_of r]> (heap m) ∧
        pending m' = drop (S i) (pending m ++ got)
    | None =>
        e' = e ∧ current_event_ptr d' = Some p ∧
        heap m' = <[p := set_parent_type NYX_EVENT_KEYS zero_event]> (heap m) ∧
        pending m' = []
    end
}.

Section Refill.
Context `{abi : nyx_abi}.
Variable os : os_script.

(** The first step of [keys_get_event]: the batch is read anew when the
    cursor is at 0. *)
Definition refill (fuel : nat) (d : keys_device_t) (m : machine)
    : result (keys_device_t * machine) :=
  if event_iter m =? 0 then
    let* (n, buf, m0) :=
      read_input_event os fuel (Some (raw_events m)) MAX_EVENTS m in
    Returned ({| current_event_ptr := None |},
              set_event_count n
                (set_raw_events (default (raw_events m0) buf) m0))
  else Returned (d, m).

(** When the batch has to be read anew and the descriptor is readable,
    the [k+1]-th read from now is the first not to be retried. *)
Definition refill_settles (m : machine) (k : nat) : Prop :=
  event_iter m = 0 →
  0 < ret_val (poll_script os (polls_done m)) →
  Z.land (revents (poll_script os (polls_done m))) POLLIN ≠ 0 →
  settles os (record_size * MAX_EVENTS) m k.

End Refill.

(** The state after the first step. *)
Record refill_post (d : keys_device_t) (m : machine) (d2 : keys_device_t)
    (m2 : machine) (got : list InputEvent_t) : Prop := {
  rf_slot : current_event_ptr d2 = None;
  rf_unread : unread m2 = pending m ++ got;
  rf_log : read_log m2 = read_log m ++ got;
  rf_heap : heap m2 = heap m;
  rf_callocs : callocs_done m2 = callocs_done m;
  rf_iter : event_iter m2 = event_iter m;
  rf_iter_count : event_iter m <= Z.max 0 (event_count m2);
  rf_count : event_count m2 <= Z.of_nat (length (raw_events m2));
  rf_length : length (raw_events m2) = Z.to_nat MAX_EVENTS;
  rf_refill : event_iter m = 0 → polls_done m2 = S (polls_done m);
  rf_iterating :
    event_iter m ≠ 0 →
    got = [] ∧ polls_done m2 = polls_done m ∧ reads_done m2 = reads_done m
}.

(** The events read so far, followed by those still to come from the
    current batch, are the events of the key records read so far. *)
Definition fifo `{abi : nyx_abi} (s : session) : Prop :=
  delivered s ++ (event_of <$> filter is_key (pending (mach s)))
  = event_of <$> filter is_key (read_log (mach s)).

(** * Properties *)

(** ** The key code table *)

Ltac unfold_keys :=
  unfold KEY_Q, KEY_W, KEY_E, KEY_LEFTSHIFT, KEY_HOME, KEY_END, KEY_MUTE,
    KEY_VOLUMEDOWN, KEY_VOLUMEUP, KEY_PAUSE, KEY_STOP, KEY_BACK, KEY_REWIND,
    KEY_HOMEPAGE, KEY_PLAY, KEY_FASTFORWARD, KEY_SEARCH, KEY_BRIGHTNESSDOWN,
    KEY_BRIGHTNESSUP, KEY_NEXT, KEY_PREVIOUS in *.

Lemma lookup_key_device `{abi : nyx_abi} (d d' : keys_device_t)
    (c v : Z) (t : nyx_key_type_t) :
  lookup_key d c v t = lookup_key d' c v t.
Proof. reflexivity. Qed.

Lemma lookup_key_custom `{abi : nyx_abi} (d : keys_device_t) (c v : Z)
    (k : nyx_keys_custom_key_t) :
  (c, k) ∈ custom_key_table →
  lookup_key d c v NYX_KEY_TYPE_STANDARD
  = (custom_key_value k, NYX_KEY_TYPE_CUSTOM).
Proof.
  unfold custom_key_table. intros H.
  repeat (apply elem_of_cons in H as [H | H];
          [injection H as -> ->; reflexivity | ]).
  by apply elem_of_nil in H.
Qed.

Lemma lookup_key_standard `{abi : nyx_abi} (d : keys_device_t) (c v : Z) :
  c ∉ custom_codes →
  lookup_key d c v NYX_KEY_TYPE_STANDARD = (c, NYX_KEY_TYPE_STANDARD).
Proof.
  unfold custom_codes, custom_key_table. cbn [fmap list_fmap fst].
  rewrite !not_elem_of_cons. intros H. unfold lookup_key.
  repeat match goal with
         | |- context [?a =? ?b] =>
             destruct (Z.eqb_spec a b); [exfalso; unfold_keys; lia | ]
         end.
  cbn. destruct (Z.eqb_spec c KEY_LEFTSHIFT) as [-> | ]; reflexivity.
Qed.

(** Only the custom cases store the class: with another preset, a code
    outside the table keeps the preset and yields 0. *)
Example lookup_key_preset_custom :
  lookup_key (abi := sample_abi) device_init 30 1 NYX_KEY_TYPE_CUSTOM
  = (0, NYX_KEY_TYPE_CUSTOM).
Proof. reflexivity. Qed.

(** C1. [lookup_key], called as [keys_get_event] calls it (the class
    preset to Standard): a code of the custom-key table yields its custom
    identifier with class Custom; every other code, the shift code
    included, yields class Standard and the code itself. *)
Theorem lookup_key_table `{abi : nyx_abi} (d : keys_device_t)
    (keyCode keyValue : Z) :
  (∀ k, (keyCode, k) ∈ custom_key_table →
        lookup_key d keyCode keyValue NYX_KEY_TYPE_STANDARD
        = (custom_key_value k, NYX_KEY_TYPE_CUSTOM)) ∧
  (keyCode ∉ custom_codes → keyCode ≠ KEY_LEFTSHIFT →
   lookup_key d keyCode keyValue NYX_KEY_TYPE_STANDARD
   = (keyCode, NYX_KEY_TYPE_STANDARD)) ∧
  lookup_key d KEY_LEFTSHIFT keyValue NYX_KEY_TYPE_STANDARD
  = (KEY_LEFTSHIFT, NYX_KEY_TYPE_STANDARD).
Proof.
  split; [ | split].
  - intros k Hk. by apply lookup_key_custom.
  - intros Hc _. by apply lookup_key_standard.
  - reflexivity.
Qed.

(** ** The reader *)

Section Reader.
Context `{abi : nyx_abi}.
Variable os : os_script.

Lemma record_size_pos : 0 < record_size.
Proof. unfold record_size. lia. Qed.

(** [read] never stores more whole records than the source has. *)
Lemma read_quot_le (nbytes partial : Z) (recs : list InputEvent_t) :
  Z.min nbytes
    (record_size * Z.of_nat (length recs) + partial mod record_size)
    / record_size <= Z.of_nat (length recs).
Proof.
  pose proof record_size_pos as Hs.
  pose proof (Z.mod_pos_bound partial record_size Hs) as Hp.
  apply Z.lt_succ_r, Z.div_lt_upper_bound; [done | ]. nia.
Qed.

Lemma read_quot_max (nbytes maxEvents partial : Z)
    (recs : list InputEvent_t) :
  nbytes = record_size * maxEvents →
  Z.min nbytes
    (record_size * Z.of_nat (length recs) + partial mod record_size)
    / record_size <= maxEvents.
Proof.
  intros ->. pose proof record_size_pos as Hs.
  apply Z.div_le_upper_bound; [done | ]. lia.
Qed.

(** What [stored] makes of the array: the whole records at the front, the
    record behind them torn when there are bytes left over, the rest and
    the length as before. *)
Lemma stored_Some (got : list InputEvent_t) (tail : Z)
    (torn : InputEvent_t → InputEvent_t) (buf buf' : list InputEvent_t) :
  stored got tail torn buf = Some buf' →
  length buf' = length buf ∧ take (length got) buf' = got ∧
  buf' !! length got
  = (if tail =? 0 then id else torn) <$> buf !! length got ∧
  drop (S (length got)) buf' = drop (S (length got)) buf.
Proof.
  unfold stored. destruct (tail =? 0).
  - destruct (decide _) as [Hle | ]; [ | done]. intros [= <-].
    split; [rewrite length_app, length_drop; lia | ].
    split; [apply take_app_length | ]. split.
    + rewrite lookup_app_r, Nat.sub_diag, lookup_drop, Nat.add_0_r by lia.
      by destruct (buf !! length got).
    + rewrite drop_app_ge, drop_drop by lia. f_equal. lia.
  - destruct (buf !! length got) as [old | ] eqn:Hold; [ | done].
    intros [= <-]. apply lookup_lt_Some in Hold.
    split; [rewrite length_app; cbn; rewrite length_drop; lia | ].
    split; [apply take_app_length | ]. split.
    + by rewrite lookup_app_r, Nat.sub_diag by lia.
    + rewrite drop_app_ge by lia.
      by replace (S (length got) - length got)%nat with 1%nat by lia.
Qed.

(** Nothing to store leaves the array as it is. *)
Lemma stored_nil (torn : InputEvent_t → InputEvent_t)
    (buf : list InputEvent_t) :
  stored [] 0 torn buf = Some buf.
Proof. unfold stored. cbn. by rewrite decide_True by lia. Qed.

(** The bytes of a request for [maxEvents] records fit into an array of
    at least that many. *)
Lemma stored_fits (maxEvents partial : Z) (recs buf : list InputEvent_t)
    (torn : InputEvent_t → InputEvent_t) :
  maxEvents <= Z.of_nat (length buf) →
  let rd :=
    Z.min (record_size * maxEvents)
      (record_size * Z.of_nat (length recs) + partial mod record_size) in
  is_Some (stored (take (Z.to_nat (rd / record_size)) recs)
             (Z.max 0 rd mod record_size) torn buf).
Proof.
  intros Hcap rd. pose proof record_size_pos as Hs.
  pose proof (read_quot_max (record_size * maxEvents) maxEvents partial recs
                eq_refl) as Hmax.
  fold rd in Hmax. unfold stored. rewrite length_take.
  destruct (Z.eqb_spec (Z.max 0 rd mod record_size) 0) as [Hz | Hnz].
  - rewrite decide_True; [by eexists | ].
    destruct (Z.le_gt_cases 0 rd); [lia | ].
    assert (rd / record_size < 0) by (apply Z.div_lt_upper_bound; lia). lia.
  - assert (0 < rd) as Hrd.
    { destruct (Z.le_gt_cases rd 0); [ | done].
      by rewrite Z.max_l, Z.mod_0_l in Hnz by lia. }
    rewrite Z.max_r in Hnz by lia.
    assert (rd / record_size < maxEvents) as Hlt.
    { apply Z.div_lt_upper_bound; [done | ].
      destruct (Z.eq_dec rd (record_size * maxEvents)) as [E | ]; [ | lia].
      rewrite E, Z.mul_comm, Z.mod_mul in Hnz by lia. done. }
    assert (0 <= rd / record_size) by (apply Z.div_pos; lia).
    destruct (lookup_lt_is_Some_2 buf
                (Z.to_nat (rd / record_size) `min` length recs)) as [old ->];
      [lia | by eexists].
Qed.

(** What one [read] does to the state, by outcome. *)
Lemma sys_read_error (nbytes err : Z) (buf : list InputEvent_t)
    (m : machine) :
  read_script os (reads_done m) = ReadError err →
  sys_read os nbytes buf m = Returned (-1, buf, count_read err [] m).
Proof. unfold sys_read. by intros ->. Qed.

Lemma sys_read_data (nbytes partial : Z) (recs buf buf' : list InputEvent_t)
    (torn : InputEvent_t → InputEvent_t) (m : machine) :
  read_script os (reads_done m) = ReadData recs partial torn →
  let rd := read_returns nbytes (ReadData recs partial torn) in
  let got := take (Z.to_nat (rd / record_size)) recs in
  stored got (Z.max 0 rd mod record_size) torn buf = Some buf' →
  sys_read os nbytes buf m
  = Returned (rd, buf', count_read (errno m) got m).
Proof.
  unfold sys_read. intros -> Hst. unfold read_returns in Hst.
  by rewrite Hst.
Qed.

(** A [read] keeps the length of the array. *)
Lemma sys_read_length (nbytes rd : Z) (buf buf' : list InputEvent_t)
    (m m' : machine) :
  sys_read os nbytes buf m = Returned (rd, buf', m') →
  length buf' = length buf.
Proof.
  unfold sys_read.
  destruct (read_script os (reads_done m)) as [recs partial torn | err];
    [ | by intros [= _ <- _]].
  destruct (stored _ _ torn buf) as [b | ] eqn:Hst; [ | done].
  intros [= _ <- _]. by apply stored_Some in Hst as [? _].
Qed.

(** More fuel does not change a result. *)
Lemma read_loop_mono (fuel fuel' : nat) (buf : list InputEvent_t)
    (maxEvents numEvents : Z) (m : machine)
    (x : Z * option (list InputEvent_t) * machine) :
  (fuel ≤ fuel')%nat →
  read_loop os fuel buf maxEvents numEvents m = Returned x →
  read_loop os fuel' buf maxEvents numEvents m = Returned x.
Proof.
  revert fuel' buf m.
  induction fuel as [ | fuel IH]; intros fuel' buf m Hle; [done | ].
  destruct fuel' as [ | fuel']; [lia | ]. cbn [read_loop].
  destruct (sys_read os _ buf m) as [[[rd buf1] m1] | | | ]; cbn [bind];
    try done.
  destruct (0 <? rd); [done | ].
  destruct ((rd <? 0) && negb (errno m1 =? EINTR)); [done | ].
  apply IH. lia.
Qed.

Lemma read_input_event_mono (fuel fuel' : nat)
    (pEvents : option (list InputEvent_t)) (maxEvents : Z) (m : machine)
    (x : Z * option (list InputEvent_t) * machine) :
  (fuel ≤ fuel')%nat →
  read_input_event os fuel pEvents maxEvents m = Returned x →
  read_input_event os fuel' pEvents maxEvents m = Returned x.
Proof.
  intros Hle. unfold read_input_event.
  destruct pEvents as [buf | ]; [ | done].
  destruct (sys_poll os m) as [fds m1].
  destruct (ret_val fds <=? 0); [done | ].
  destruct (negb _); [ | done]. by apply read_loop_mono.
Qed.

Local Ltac post_nil :=
  split; [ | done];
  split; cbn; rewrite ?app_nil_r; try done; try lia;
  first [by eexists | by left | by right].

Lemma read_loop_post (fuel : nat) (buf : list InputEvent_t)
    (maxEvents : Z) (m : machine) (n : Z)
    (b : option (list InputEvent_t)) (m' : machine) :
  read_loop os fuel buf maxEvents 0 m = Returned (n, b, m') →
  ∃ got, read_post buf maxEvents m n b m' got ∧
         polls_done m' = polls_done m.
Proof.
  revert m. induction fuel as [ | fuel IH]; intros m; [done | ].
  cbn [read_loop]. unfold sys_read.
  destruct (read_script os (reads_done m)) as [recs partial torn | err].
  - set (rd := Z.min _ _).
    set (got := take (Z.to_nat (rd / record_size)) recs).
    pose proof (read_quot_le (record_size * maxEvents) partial recs) as Hle.
    pose proof (read_quot_max (record_size * maxEvents) maxEvents partial
                  recs eq_refl) as Hmax.
    fold rd in Hle, Hmax.
    destruct (stored got _ torn buf) as [buf1 | ] eqn:Hst; cbn [bind];
      [ | done].
    destruct (0 <? rd) eqn:Hrd.
    + intros [= <- <- <-]. exists got.
      assert (0 <= rd / record_size) as Hq
        by (apply Z.div_pos; [lia | apply record_size_pos]).
      assert (length got = Z.to_nat (rd / record_size)) as Hlen
        by (unfold got; rewrite length_take; lia).
      apply stored_Some in Hst as (Hl & Ht & _ & Hd).
      split; [ | done]. split; cbn; try done; [by eexists | left | ]; lia.
    + assert (rd / record_size <= 0) as Hq.
      { apply Z.div_le_upper_bound; [apply record_size_pos | lia]. }
      assert (got = []) as Hgot
        by (unfold got; by replace (Z.to_nat _) with 0%nat by lia).
      rewrite Hgot in Hst |- *.
      assert (buf1 = buf) as ->.
      { assert (Z.max 0 rd mod record_size = 0) as Hz
          by (rewrite Z.max_l by lia; apply Z.mod_0_l;
              pose proof record_size_pos; lia).
        rewrite Hz, stored_nil in Hst. by injection Hst. }
      destruct ((rd <? 0) && _).
      * intros [= <- <- <-]. exists []. by post_nil.
      * intros H. apply IH in H as (got' & H & Hpolls). exists got'.
        split; [ | done]. destruct H. split; cbn in *; try done.
        by rewrite rp_log0, app_nil_r.
  - cbn. destruct (negb (err =? EINTR)).
    + intros [= <- <- <-]. exists []. by post_nil.
    + intros H. apply IH in H as (got & H & Hpolls). exists got.
      split; [ | done]. destruct H. split; cbn in *; try done.
      by rewrite rp_log0, app_nil_r.
Qed.

Lemma read_input_event_post (fuel : nat) (buf : list InputEvent_t)
    (maxEvents : Z) (m : machine) (n : Z)
    (b : option (list InputEvent_t)) (m' : machine) :
  read_input_event os fuel (Some buf) maxEvents m = Returned (n, b, m') →
  ∃ got, read_post buf maxEvents m n b m' got ∧
         polls_done m' = S (polls_done m).
Proof.
  unfold read_input_event, sys_poll.
  destruct (ret_val _ <=? 0); [ | destruct (negb _)].
  - intros [= <- <- <-]. exists []. by post_nil.
  - intros H. apply read_loop_post in H as (got & H & Hpolls). exists got.
    split; [by destruct H | done].
  - intros [= <- <- <-]. exists []. by post_nil.
Qed.

End Reader.

Section ReaderRuns.
Context `{abi : nyx_abi}.
Variable os : os_script.


Lemma reads_apart_refl (m : machine) : reads_apart m m 0.
Proof. split; cbn; try done; lia. Qed.

(** A retried read costs one unit of fuel and leaves no other trace. *)
Lemma read_loop_retry (fuel : nat) (buf : list InputEvent_t)
    (maxEvents numEvents : Z) (m : machine) :
  0 <= maxEvents →
  retried (record_size * maxEvents) (read_script os (reads_done m)) = true →
  ∃ m1, reads_apart m m1 1 ∧
        read_loop os (S fuel) buf maxEvents numEvents m
        = read_loop os fuel buf maxEvents numEvents m1.
Proof.
  intros Hmax. cbn [read_loop]. unfold sys_read, retried, read_returns.
  destruct (read_script os (reads_done m)) as [recs partial torn | err].
  - set (rd := Z.min _ _). intros Hrd%Z.leb_le.
    pose proof (Z.mod_pos_bound partial record_size record_size_pos).
    assert (rd = 0) as ->.
    { unfold rd in *. pose proof record_size_pos.
      apply Z.le_antisymm; [done | apply Z.min_glb; nia]. }
    rewrite Z.div_0_l by (pose proof record_size_pos; lia).
    change (Z.max 0 0) with 0. rewrite Z.mod_0_l by lia.
    cbn [Z.to_nat]. rewrite take_0, stored_nil. cbn.
    eexists. split; [ | reflexivity].
    split; cbn; rewrite ?app_nil_r; try done; lia.
  - intros ->%Z.eqb_eq. cbn. eexists. split; [ | reflexivity].
    split; cbn; rewrite ?app_nil_r; try done; lia.
Qed.

Lemma read_loop_retries (k fuel : nat) (buf : list InputEvent_t)
    (maxEvents numEvents : Z) (m : machine) :
  0 <= maxEvents →
  (∀ j, (j < k)%nat →
     retried (record_size * maxEvents)
       (read_script os (reads_done m + j)) = true) →
  ∃ mk, reads_apart m mk k ∧
        read_loop os (k + fuel) buf maxEvents numEvents m
        = read_loop os fuel buf maxEvents numEvents mk.
Proof.
  intros Hmax. revert m. induction k as [ | k IH]; intros m Hk.
  - exists m. split; [apply reads_apart_refl | done].
  - destruct (read_loop_retry (k + fuel) buf maxEvents numEvents m Hmax)
      as (m1 & H1 & E1).
    { specialize (Hk 0%nat). rewrite Nat.add_0_r in Hk. apply Hk. lia. }
    destruct (IH m1) as (mk & Hk' & Ek).
    { intros j Hj. destruct H1. rewrite ra_reads0.
      replace (reads_done m + 1 + j)%nat with (reads_done m + S j)%nat
        by lia.
      apply Hk. lia. }
    exists mk. split; [ | by rewrite <- Ek, <- E1].
    destruct H1, Hk'. split; try congruence; lia.
Qed.

(** The read that ends the loop: a failure other than EINTR. *)
Lemma read_loop_fails (fuel : nat) (buf : list InputEvent_t)
    (maxEvents numEvents err : Z) (m : machine) :
  read_script os (reads_done m) = ReadError err → err ≠ EINTR →
  read_loop os (S fuel) buf maxEvents numEvents m
  = Returned (-1, Some buf, nyx_error (count_read err [] m)).
Proof.
  intros Hr Herr. cbn [read_loop]. rewrite (sys_read_error _ _ _ _ _ Hr).
  cbn. by apply Z.eqb_neq in Herr as ->.
Qed.

(** The read that ends the loop: some bytes arrived. *)
Lemma read_loop_reads (fuel : nat) (recs buf buf' : list InputEvent_t)
    (maxEvents numEvents partial : Z) (torn : InputEvent_t → InputEvent_t)
    (m : machine) :
  read_script os (reads_done m) = ReadData recs partial torn →
  let rd :=
    read_returns (record_size * maxEvents) (ReadData recs partial torn) in
  let got := take (Z.to_nat (rd / record_size)) recs in
  0 < rd →
  stored got (rd mod record_size) torn buf = Some buf' →
  read_loop os (S fuel) buf maxEvents numEvents m
  = Returned (numEvents + rd / record_size, Some buf',
              count_read (errno m) got m).
Proof.
  intros Hr rd got Hrd Hst. cbn [read_loop].
  rewrite (sys_read_data _ _ _ _ _ buf' _ _ Hr);
    [ | fold rd; by rewrite Z.max_r by lia].
  fold rd. cbn [bind]. by apply Z.ltb_lt in Hrd as ->.
Qed.

(** With enough fuel the loop returns as soon as a read is not retried. *)
Lemma read_loop_settles (k fuel : nat) (buf : list InputEvent_t)
    (maxEvents numEvents : Z) (m : machine) :
  0 <= maxEvents → maxEvents <= Z.of_nat (length buf) →
  settles os (record_size * maxEvents) m k → (k < fuel)%nat →
  ∃ x, read_loop os fuel buf maxEvents numEvents m = Returned x ∧
       reads_done x.2 = (reads_done m + k + 1)%nat ∧
       polls_done x.2 = polls_done m.
Proof.
  intros Hmax Hcap [Hk Hlast] Hfuel.
  destruct (read_loop_retries k (fuel - k) buf maxEvents numEvents m Hmax Hk)
    as (mk & Hmk & E).
  replace (k + (fuel - k))%nat with fuel in E by lia. rewrite E.
  destruct (fuel - k)%nat as [ | f] eqn:Hf; [lia | ].
  destruct Hmk. rewrite <- ra_reads0 in Hlast.
  destruct (read_script os (reads_done mk)) as [recs partial torn | err]
    eqn:Hr.
  - cbn [retried] in Hlast. apply Z.leb_gt in Hlast.
    destruct (stored_fits maxEvents partial recs buf torn Hcap)
      as [buf' Hst].
    cbv zeta in Hst. rewrite Z.max_r in Hst by (unfold read_returns in *; lia).
    eexists. split;
      [exact (read_loop_reads f recs buf buf' maxEvents numEvents partial
                torn mk Hr Hlast Hst) | ].
    cbn. split; lia.
  - cbn [retried] in Hlast. apply Z.eqb_neq in Hlast.
    eexists. split; [by apply read_loop_fails | ]. cbn. split; lia.
Qed.

Lemma interrupted_retried (nbytes : Z) (m : machine) (k : nat) :
  interrupted os m k →
  ∀ j, (j < k)%nat →
       retried nbytes (read_script os (reads_done m + j)) = true.
Proof. intros H j Hj. by rewrite (H j Hj). Qed.

End ReaderRuns.

(** ** The iterator *)

Section Iterator.
Context `{abi : nyx_abi}.

Lemma set_event_iter_same (m : machine) : set_event_iter (event_iter m) m = m.
Proof. by destruct m. Qed.

Lemma unread_nil (m : machine) :
  0 <= event_iter m → event_count m <= event_iter m → unread m = [].
Proof.
  intros H0 Hge. unfold unread. apply drop_ge. rewrite length_take. lia.
Qed.

Lemma unread_cons (m : machine) :
  0 <= event_iter m → event_iter m < event_count m →
  event_count m <= Z.of_nat (length (raw_events m)) →
  ∃ r, array_get (raw_events m) (event_iter m) = Some r ∧
       unread m = r :: unread (set_event_iter (event_iter m + 1) m).
Proof.
  intros H0 Hlt Hlen. unfold array_get, unread. cbn.
  destruct (Z.ltb_spec (event_iter m) 0); [lia | ].
  destruct (lookup_lt_is_Some_2 (raw_events m) (Z.to_nat (event_iter m)))
    as [r Hr]; [lia | ].
  exists r. split; [done | ].
  replace (Z.to_nat (event_iter m + 1)) with (S (Z.to_nat (event_iter m)))
    by lia.
  apply drop_S. rewrite lookup_take_lt; [done | lia].
Qed.

Lemma unread_length (m : machine) :
  0 <= event_iter m → event_iter m <= event_count m →
  event_count m <= Z.of_nat (length (raw_events m)) →
  Z.of_nat (length (unread m)) = event_count m - event_iter m.
Proof.
  intros. unfold unread. rewrite length_drop, length_take. lia.
Qed.

(** The event the loop stores for a key record is the expected one, up to
    the type tag the block already carries. *)
Lemma stored_event (d : keys_device_t) (r : InputEvent_t)
    (ev0 : nyx_event_keys_t) (k : Z) (kt : nyx_key_type_t) :
  lookup_key d (code r) (value r) NYX_KEY_TYPE_STANDARD = (k, kt) →
  {| parent_type := parent_type ev0; key_type := kt; key := k;
     key_is_press := if value r =? 0 then false else true;
     key_is_auto_repeat := if 1 <? value r then true else false |}
  = set_parent_type (parent_type ev0) (event_of r).
Proof.
  intros Hk. unfold event_of, set_parent_type. cbn.
  rewrite <- (lookup_key_device d device_init), Hk. cbn.
  by destruct (value r =? 0), (1 <? value r).
Qed.

(** The loop, run with enough fuel from a state whose slot holds a live
    block: it stops at the first key record not yet visited. *)
Lemma keys_get_event_loop_finds (fuel : nat) (d : keys_device_t)
    (e : option ptr) (m : machine) (p : ptr) (ev0 : nyx_event_keys_t) :
  0 <= event_iter m →
  event_count m <= Z.of_nat (length (raw_events m)) →
  current_event_ptr d = Some p →
  heap m !! p = Some ev0 →
  (length (unread m) < fuel)%nat →
  keys_get_event_loop fuel d e m
  = match list_find is_key (unread m) with
    | Some (i, r) =>
        Returned
          ({| current_event_ptr := None |}, Some p,
           set_heap
             (<[p := set_parent_type (parent_type ev0) (event_of r)]> (heap m))
             (set_event_iter (event_iter m + Z.of_nat i + 1) m))
    | None =>
        Returned
          (d, e, set_event_iter (Z.max (event_iter m) (event_count m)) m)
    end.
Proof.
  intros H0 Hlen Hd. revert m H0 Hlen.
  induction fuel as [ | fuel IH]; intros m H0 Hlen Hp Hfuel; [lia | ].
  cbn [keys_get_event_loop].
  destruct (Z.ltb_spec (event_iter m) (event_count m)) as [Hlt | Hge].
  - destruct (unread_cons m H0 Hlt Hlen) as (r & -> & Hun).
    rewrite Hun in Hfuel |- *. cbn [list_find]. rewrite Hd.
    unfold is_key at 1. destruct (Z.eqb_spec (type r) EV_KEY) as [Hk | Hk].
    + rewrite decide_True by done. cbn [heap set_event_iter]. rewrite Hp.
      destruct (lookup_key d _ _ _) as [k kt] eqn:Hlk.
      rewrite (stored_event d r ev0 k kt Hlk). cbn. by rewrite Z.add_0_r.
    + rewrite decide_False by done.
      cbn [length] in Hfuel.
      rewrite IH; [ | cbn; lia | done | done | lia].
      destruct (list_find is_key _) as [[i r'] | ]; cbn.
      * do 3 f_equal. unfold set_event_iter. cbn. f_equal; lia.
      * do 2 f_equal. unfold set_event_iter. cbn. f_equal; lia.
  - rewrite unread_nil by done. cbn.
    by rewrite Z.max_l, set_event_iter_same by done.
Qed.

(** More fuel does not change a result. *)
Lemma keys_get_event_loop_mono (fuel fuel' : nat) (d : keys_device_t)
    (e : option ptr) (m : machine)
    (x : keys_device_t * option ptr * machine) :
  (fuel ≤ fuel')%nat →
  keys_get_event_loop fuel d e m = Returned x →
  keys_get_event_loop fuel' d e m = Returned x.
Proof.
  revert fuel' m. induction fuel as [ | fuel IH]; intros fuel' m Hle; [done | ].
  destruct fuel' as [ | fuel']; [lia | ]. cbn [keys_get_event_loop].
  destruct (event_iter m <? event_count m); [ | done].
  destruct (array_get _ _) as [r | ]; [ | done].
  destruct (type r =? EV_KEY).
  - destruct (current_event_ptr d); [ | done].
    destruct (heap _ !! _); [ | done].
    by destruct (lookup_key _ _ _ _).
  - apply IH. lia.
Qed.

End Iterator.

(** ** One call of [keys_get_event] *)

Section OneCall.
Context `{abi : nyx_abi}.
Variable os : os_script.

Lemma find_key_bound (l : list InputEvent_t) (i : nat) (r : InputEvent_t) :
  list_find is_key l = Some (i, r) → (i < length l)%nat ∧ is_key r.
Proof.
  intros (Hl & Hk & _)%list_find_Some. split; [ | done].
  by apply lookup_lt_Some in Hl.
Qed.

(** From the state in which the loop starts (the slot holds a live block
    [p] tagged [NYX_EVENT_KEYS]) to the state the call returns in. *)
Lemma keys_get_event_loop_post (fuel : nat) (d d' : keys_device_t)
    (e e' : option ptr) (m m' : machine) (p : ptr) (ev0 : nyx_event_keys_t) :
  0 <= event_iter m → event_iter m <= Z.max 0 (event_count m) →
  event_count m <= Z.of_nat (length (raw_events m)) →
  length (raw_events m) = Z.to_nat MAX_EVENTS →
  current_event_ptr d = Some p →
  heap m !! p = Some ev0 → parent_type ev0 = NYX_EVENT_KEYS →
  keys_get_event_loop fuel d e m = Returned (d', e', m') →
  Inv d' (reset_cursor m') ∧ os_same m (reset_cursor m') ∧
  match list_find is_key (unread m) with
  | Some (i, r) =>
      e' = Some p ∧ current_event_ptr d' = None ∧
      heap (reset_cursor m') = <[p := event_of r]> (heap m) ∧
      pending (reset_cursor m') = drop (S i) (unread m)
  | None =>
      e' = e ∧ d' = d ∧ heap (reset_cursor m') = heap m ∧
      pending (reset_cursor m') = []
  end.
Proof.
  intros H0 Hic Hlen H64 Hd Hp Hty Hrun.
  apply (keys_get_event_loop_mono _ (fuel + S (length (unread m)))) in Hrun;
    [ | lia].
  rewrite (keys_get_event_loop_finds _ d e m p ev0) in Hrun by (done || lia).
  destruct (list_find is_key (unread m)) as [[i r] | ] eqn:Hfind.
  - injection Hrun as <- <- <-.
    apply find_key_bound in Hfind as [Hi _].
    assert (Z.of_nat (length (unread m)) = event_count m - event_iter m)
      as Hul.
    { destruct (Z.le_gt_cases (event_count m) 0).
      - rewrite unread_nil in Hi by lia. cbn in Hi. lia.
      - apply unread_length; lia. }
    assert (set_parent_type (parent_type ev0) (event_of r) = event_of r)
      as -> by (by rewrite Hty).
    unfold reset_cursor, pending. cbn.
    destruct (Z.leb_spec (event_count m) (event_iter m + Z.of_nat i + 1)).
    + cbn. split; [split; cbn; done || lia | ].
      split; [by split | ]. repeat split; try done.
      symmetry. apply drop_ge. lia.
    + cbn. destruct (Z.eqb_spec (event_iter m + Z.of_nat i + 1) 0); [lia | ].
      split; [split; cbn; done || lia | ].
      split; [by split | ]. repeat split; try done.
      unfold unread. cbn. rewrite drop_drop. f_equal. lia.
  - injection Hrun as <- <- <-. unfold reset_cursor, pending. cbn.
    destruct (Z.leb_spec (event_count m) (Z.max (event_iter m) (event_count m)));
      [ | lia].
    cbn. split; [split; cbn; done || lia | ].
    split; [by split | done].
Qed.

(** The state in which the loop starts after a refill. *)
Lemma unread_refill (m1 : machine) (buf got : list InputEvent_t) (n : Z) :
  n = Z.of_nat (length got) ∨ (n = -1 ∧ got = []) →
  event_iter m1 = 0 → take (length got) buf = got →
  unread (set_event_count n (set_raw_events buf m1)) = got.
Proof.
  intros Hn Hi Ht. unfold unread. cbn. rewrite Hi. cbn.
  destruct Hn as [-> | [-> ->]]; [ | done].
  by rewrite Nat2Z.id.
Qed.

Lemma keys_get_event_refill (fuel : nat) (d : keys_device_t)
    (e : option ptr) (m : machine) :
  keys_get_event os fuel (Some d) e m
  = let* (keys_device, m) := refill os fuel d m in
    let* (keys_device, m) :=
      (match current_event_ptr keys_device with
       | None =>
           let '(p, m) := keys_event_create os m in
           match p with
           | None => Aborted
           | Some _ => Returned ({| current_event_ptr := p |}, m)
           end
       | Some _ => Returned (keys_device, m)
       end) in
    let* (keys_device, e, m) := keys_get_event_loop fuel keys_device e m in
    Returned (NYX_ERROR_NONE, keys_device, e, reset_cursor m).
Proof. reflexivity. Qed.

Lemma refill_returned (fuel : nat) (d d2 : keys_device_t) (m m2 : machine) :
  Inv d m → refill os fuel d m = Returned (d2, m2) →
  ∃ got, refill_post d m d2 m2 got.
Proof.
  intros HInv. unfold refill, pending. destruct HInv.
  destruct (Z.eqb_spec (event_iter m) 0) as [Hz | Hnz].
  - destruct (read_input_event _ _ _ _ _) as [[[n b] m1] | | | ] eqn:Hread;
      cbn [bind]; try done.
    apply read_input_event_post in Hread as (got & [] & Hpolls).
    destruct rp_buf0 as (buf' & -> & Hlen & Htake & _).
    intros [= <- <-]. exists got. cbn.
    rewrite inv_length0 in Hlen.
    split; cbn [fst snd raw_events event_count event_iter heap read_log
                polls_done reads_done callocs_done set_event_count
                set_raw_events default from_option id current_event_ptr];
      rewrite ?Hlen; try done; try congruence;
      try (unfold MAX_EVENTS in *; lia).
    unfold pending. rewrite Hz. cbn [Z.eqb app].
    rewrite (unread_refill _ _ got); [done | done | congruence | done].
  - intros [= <- <-]. exists [].
    split; rewrite ?app_nil_r; try done; try lia; [by apply inv_slot0 | ].
    unfold pending. by apply Z.eqb_neq in Hnz as ->.
Qed.

Lemma keys_get_event_post (fuel : nat) (d d' : keys_device_t)
    (e e' : option ptr) (m m' : machine) (err : nyx_error_t) :
  Inv d m →
  keys_get_event os fuel (Some d) e m = Returned (err, d', e', m') →
  err = NYX_ERROR_NONE ∧ calloc_script os (callocs_done m) = true ∧
  ∃ got d2 m2,
    get_post d e m d' e' m' got ∧ refill os fuel d m = Returned (d2, m2) ∧
    reads_done m' = reads_done m2.
Proof.
  intros HInv. rewrite keys_get_event_refill.
  destruct (refill os fuel d m) as [[d2 m2] | | | ] eqn:E2; cbn [bind]; try done.
  destruct (refill_returned _ _ _ _ _ HInv E2) as (got & []).
  rewrite rf_slot0.
  (* the allocation *)
  unfold keys_event_create, calloc_event. rewrite rf_callocs0, rf_heap0.
  destruct (calloc_script os (callocs_done m)); cbn [bind]; [ | done].
  set (p := fresh (dom (heap m))).
  set (m3 := set_heap _ _).
  (* the loop *)
  destruct (keys_get_event_loop fuel _ e m3) as [[[d4 e4] m4] | | | ] eqn:E4;
    cbn [bind]; try done.
  intros [= <- <- <- <-]. split; [done | ]. split; [done | ].
  apply (keys_get_event_loop_post _ _ _ _ _ _ _ p
           (set_parent_type NYX_EVENT_KEYS zero_event)) in E4;
    try done; try (subst m3; cbn; lia || congruence).
  2:{ subst m3. cbn. destruct HInv. lia. }
  2:{ subst m3. cbn. by rewrite alter_insert_eq, lookup_insert_eq. }
  destruct E4 as (Hinv' & [] & Hev).
  exists got, d2, m2. subst m3. cbn in *.
  split; [ | done]. split; try done; try congruence.
  - intros Hz. rewrite os_polls0. by apply rf_refill0.
  - intros Hnz. destruct (rf_iterating0 Hnz) as (-> & ? & ?). split; [done | ].
    split; congruence.
  - cbn. fold p. change (unread _) with (unread m2) in Hev.
    rewrite rf_unread0 in Hev.
    destruct (list_find is_key (pending m ++ got)) as [[i r] | ].
    + destruct Hev as (-> & -> & -> & ->).
      by rewrite alter_insert_eq, insert_insert_eq.
    + destruct Hev as (-> & -> & -> & ->).
      by rewrite alter_insert_eq.
Qed.

Lemma refill_returns (fuel k : nat) (d : keys_device_t) (m : machine) :
  length (raw_events m) = Z.to_nat MAX_EVENTS →
  refill_settles os m k → (k < fuel)%nat →
  ∃ x, refill os fuel d m = Returned x.
Proof.
  intros Hlen Hs Hfuel. unfold refill, read_input_event, sys_poll.
  destruct (Z.eqb_spec (event_iter m) 0) as [Hz | Hnz]; [ | by eexists].
  destruct (Z.leb_spec (ret_val (poll_script os (polls_done m))) 0);
    [by eexists | ].
  destruct (Z.eqb_spec (Z.land (revents (poll_script os (polls_done m))) POLLIN) 0);
    [by eexists | ]. cbn [negb].
  destruct (read_loop_settles os k fuel (raw_events m) MAX_EVENTS 0
              (count_poll m)) as ([[cnt b] m1] & -> & _);
    [done | lia | | done | ].
  - by apply Hs.
  - by eexists.
Qed.

Lemma unread_bound (m : machine) :
  (length (unread m) ≤ length (raw_events m))%nat.
Proof. unfold unread. rewrite length_drop, length_take. lia. Qed.

(** A call made between two calls ends as soon as its read does: it
    returns when the allocation succeeds and aborts when it fails. *)
Lemma keys_get_event_ends (fuel k : nat) (d : keys_device_t)
    (e : option ptr) (m : machine) :
  Inv d m → refill_settles os m k → (k + Z.to_nat MAX_EVENTS < fuel)%nat →
  if calloc_script os (callocs_done m)
  then ∃ d' e' m',
         keys_get_event os fuel (Some d) e m
         = Returned (NYX_ERROR_NONE, d', e', m')
  else keys_get_event os fuel (Some d) e m = Aborted.
Proof.
  intros HInv Hs Hfuel. rewrite keys_get_event_refill.
  destruct (refill_returns fuel k d m (inv_length d m HInv) Hs)
    as [[d2 m2] E2]; [lia | ].
  rewrite E2. cbn [bind].
  apply refill_returned in E2 as (got & []); [ | done]. rewrite rf_slot0.
  unfold keys_event_create, calloc_event. rewrite rf_callocs0, rf_heap0.
  destruct (calloc_script os (callocs_done m)); [ | done].
  cbn [bind]. set (p := fresh (dom (heap m))). set (m3 := set_heap _ _).
  rewrite (keys_get_event_loop_finds fuel _ e m3 p
             (set_parent_type NYX_EVENT_KEYS zero_event)).
  - destruct (list_find is_key (unread m3)) as [[i r] | ]; cbn [bind];
      by eexists _, _, _.
  - subst m3. cbn. destruct HInv. lia.
  - done.
  - done.
  - subst m3. cbn. by rewrite alter_insert_eq, lookup_insert_eq.
  - pose proof (unread_bound m2) as Hb. rewrite rf_length0 in Hb.
    change (unread m3) with (unread m2). lia.
Qed.

Lemma keys_get_event_returns (fuel k : nat) (d : keys_device_t)
    (e : option ptr) (m : machine) :
  Inv d m → calloc_script os (callocs_done m) = true →
  refill_settles os m k → (k + Z.to_nat MAX_EVENTS < fuel)%nat →
  ∃ d' e' m',
    keys_get_event os fuel (Some d) e m
    = Returned (NYX_ERROR_NONE, d', e', m').
Proof.
  intros HInv Hc Hs Hfuel.
  pose proof (keys_get_event_ends fuel k d e m HInv Hs Hfuel) as H.
  by rewrite Hc in H.
Qed.

(** The reads a refill makes. *)
Lemma refill_reads (fuel k : nat) (d d2 : keys_device_t) (m m2 : machine) :
  length (raw_events m) = Z.to_nat MAX_EVENTS →
  refill_settles os m k → refill os fuel d m = Returned (d2, m2) →
  (reads_done m2 ≤ reads_done m + k + 1)%nat ∧
  (event_iter m = 0 →
   0 < ret_val (poll_script os (polls_done m)) →
   Z.land (revents (poll_script os (polls_done m))) POLLIN ≠ 0 →
   reads_done m2 = (reads_done m + k + 1)%nat).
Proof.
  unfold refill_settles, refill, read_input_event, sys_poll. intros Hlen Hs.
  destruct (Z.eqb_spec (event_iter m) 0) as [Hz | Hnz];
    [ | intros [= <- <-]; split; [lia | done]].
  destruct (Z.leb_spec (ret_val (poll_script os (polls_done m))) 0) as [ | Hr].
  { cbn. intros [= <- <-]. cbn. split; lia. }
  destruct (Z.eqb_spec (Z.land (revents (poll_script os (polls_done m))) POLLIN) 0)
    as [ | Hp].
  { cbn. intros [= <- <-]. cbn. split; [lia | done]. }
  cbn [negb]. specialize (Hs Hz Hr Hp).
  destruct (read_loop_settles os k (S (fuel + k)) (raw_events m) MAX_EVENTS 0
              (count_poll m)) as ([[cnt b] m1] & E1 & Hreads & _);
    [done | cbn; lia | done | lia | ].
  destruct (read_loop os fuel _ _ _ _) as [y | | | ] eqn:E; cbn [bind];
    try done.
  apply (read_loop_mono os fuel (S (fuel + k))) in E; [ | lia].
  rewrite E in E1. injection E1 as ->. intros [= <- <-]. cbn in *.
  split; [lia | done].
Qed.

(** More fuel does not change the result of a call. *)
Lemma keys_get_event_mono (fuel fuel' : nat) (d : option keys_device_t)
    (e : option ptr) (m : machine)
    (x : nyx_error_t * keys_device_t * option ptr * machine) :
  (fuel ≤ fuel')%nat →
  keys_get_event os fuel d e m = Returned x →
  keys_get_event os fuel' d e m = Returned x.
Proof.
  intros Hle. destruct d as [d | ]; [ | done].
  rewrite !keys_get_event_refill. unfold refill.
  destruct (event_iter m =? 0).
  - destruct (read_input_event os fuel _ _ _) as [y | | | ] eqn:Hr;
      cbn [bind]; try done.
    rewrite (read_input_event_mono os fuel fuel' _ _ _ y Hle Hr).
    destruct y as [[n b] m1]. cbn [bind current_event_ptr].
    destruct (keys_event_create os _) as [[p | ] m3]; cbn [bind]; [ | done].
    destruct (keys_get_event_loop fuel _ e m3) as [z | | | ] eqn:Hl;
      cbn [bind]; try done.
    by rewrite (keys_get_event_loop_mono fuel fuel' _ _ _ z Hle Hl).
  - cbn [bind].
    destruct (match current_event_ptr d with Some _ => _ | None => _ end)
      as [[d3 m3] | | | ]; cbn [bind]; try done.
    destruct (keys_get_event_loop fuel _ e m3) as [z | | | ] eqn:Hl;
      cbn [bind]; try done.
    by rewrite (keys_get_event_loop_mono fuel fuel' _ _ _ z Hle Hl).
Qed.

End OneCall.

(** ** Claims about one call *)

Lemma Inv_init : Inv device_init machine_init.
Proof. split; cbn; done || lia. Qed.

Section Calls.
Context `{abi : nyx_abi}.
Variable os : os_script.

(** A call that hands out an event: which record it stems from, where
    the event lives and what the call leaves behind. *)
Lemma keys_get_event_delivers (fuel : nat) (d d' : keys_device_t)
    (m m' : machine) (err : nyx_error_t) (p : ptr) :
  Inv d m →
  keys_get_event os fuel (Some d) None m = Returned (err, d', Some p, m') →
  ∃ got i r,
    read_log m' = read_log m ++ got ∧
    list_find is_key (pending m ++ got) = Some (i, r) ∧
    p = fresh (dom (heap m)) ∧
    heap m' = <[p := event_of r]> (heap m) ∧
    current_event_ptr d' = None ∧
    pending m' = drop (S i) (pending m ++ got).
Proof.
  intros HInv Hcall.
  destruct (keys_get_event_post os _ _ _ _ _ _ _ _ HInv Hcall)
    as (_ & _ & got & d2 & m2 & [] & _ & _).
  cbn zeta in gp_event0.
  destruct (list_find is_key (pending m ++ got)) as [[i r] | ] eqn:Hfind.
  - destruct gp_event0 as ([= ->] & Hslot & Hheap & Hpend).
    by exists got, i, r.
  - by destruct gp_event0 as (? & _).
Qed.

(** C3. The event a call hands out (the caller's cell held NULL before
    the call) stems from the first key record not yet visited, and its flags are is_press = (value != 0) and
    is_auto_repeat = (value > 1): value 0 gives false/false, value 1
    true/false, a value above 1 true/true; auto-repeat implies press. *)
Theorem keys_get_event_flags (fuel : nat) (d d' : keys_device_t)
    (m m' : machine) (err : nyx_error_t) (p : ptr) :
  Inv d m →
  keys_get_event os fuel (Some d) None m = Returned (err, d', Some p, m') →
  ∃ got i r ev,
    read_log m' = read_log m ++ got ∧
    list_find is_key (pending m ++ got) = Some (i, r) ∧
    heap m' !! p = Some ev ∧
    key_is_press ev = negb (value r =? 0) ∧
    key_is_auto_repeat ev = (1 <? value r) ∧
    (value r = 0 → key_is_press ev = false ∧ key_is_auto_repeat ev = false) ∧
    (value r = 1 → key_is_press ev = true ∧ key_is_auto_repeat ev = false) ∧
    (1 < value r → key_is_press ev = true ∧ key_is_auto_repeat ev = true) ∧
    (key_is_auto_repeat ev = true → key_is_press ev = true).
Proof.
  intros HInv Hcall.
  destruct (keys_get_event_delivers _ _ _ _ _ _ _ HInv Hcall)
    as (got & i & r & Hlog & Hfind & _ & Hheap & _).
  exists got, i, r, (event_of r).
  split; [done | ]. split; [done | ].
  split; [by rewrite Hheap, lookup_insert_eq | ]. cbn.
  split; [done | ]. split; [done | ].
  split; [by intros -> | ]. split; [by intros -> | ].
  destruct (Z.eqb_spec (value r) 0), (Z.ltb_spec 1 (value r));
    repeat split; done || lia.
Qed.

(** C10. A key record with a negative value yields an event with
    is_press = true and is_auto_repeat = false: the record the event stems
    from is the first key record not yet visited. *)
Theorem keys_get_event_negative_value (fuel : nat) (d d' : keys_device_t)
    (m m' : machine) (err : nyx_error_t) (p : ptr) :
  Inv d m →
  keys_get_event os fuel (Some d) None m = Returned (err, d', Some p, m') →
  ∃ got i r ev,
    read_log m' = read_log m ++ got ∧
    list_find is_key (pending m ++ got) = Some (i, r) ∧
    heap m' !! p = Some ev ∧
    (value r < 0 → key_is_press ev = true ∧ key_is_auto_repeat ev = false).
Proof.
  intros HInv Hcall.
  destruct (keys_get_event_delivers _ _ _ _ _ _ _ HInv Hcall)
    as (got & i & r & Hlog & Hfind & _ & Hheap & _).
  exists got, i, r, (event_of r).
  split; [done | ]. split; [done | ].
  split; [by rewrite Hheap, lookup_insert_eq | ]. cbn.
  intros Hneg. split.
  - destruct (Z.eqb_spec (value r) 0); [lia | done].
  - apply Z.ltb_ge. lia.
Qed.

(** C2, as the code has it. The module does not track the events it has
    handed out, and handing one out never fails because of them. A call
    made with the device's slot empty (as [nyx_module_open] and every call
    that returned an event leave it), whatever blocks are live, returns
    NYX_ERROR_NONE once its read has ended and its allocation has
    succeeded; it returns an event whenever a key record is left in the
    batch or among the records it reads; and the event it returns is in
    one new block, at an address that was not live before the call, so
    distinct from every event still outstanding; the blocks live before
    the call are left as they were, and the slot is empty again
    afterwards. The device itself thus holds no event between such calls,
    while any number of returned events may be live. *)
Theorem keys_get_event_fresh_event (fuel k : nat) (d : keys_device_t)
    (m : machine) :
  Inv d m → current_event_ptr d = None →
  calloc_script os (callocs_done m) = true →
  refill_settles os m k → (k + Z.to_nat MAX_EVENTS < fuel)%nat →
  ∃ d' e' m' got,
    keys_get_event os fuel (Some d) None m
    = Returned (NYX_ERROR_NONE, d', e', m') ∧
    read_log m' = read_log m ++ got ∧
    ((∃ r, r ∈ pending m ++ got ∧ type r = EV_KEY) → is_Some e') ∧
    ∀ p, e' = Some p →
      (p ∉ dom (heap m)) ∧
      (dom (heap m') = {[p]} ∪ dom (heap m)) ∧
      (∀ q, q ≠ p → heap m' !! q = heap m !! q) ∧
      current_event_ptr d' = None.
Proof.
  intros HInv _ Hc Hs Hfuel.
  destruct (keys_get_event_returns os fuel k d None m HInv Hc Hs Hfuel)
    as (d' & e' & m' & Hcall).
  destruct (keys_get_event_post os _ _ _ _ _ _ _ _ HInv Hcall)
    as (_ & _ & got & d2 & m2 & [] & _ & _).
  exists d', e', m', got. split; [done | ]. split; [done | ].
  cbn zeta in gp_event0.
  destruct (list_find is_key (pending m ++ got)) as [[i r] | ] eqn:Hfind.
  - destruct gp_event0 as (-> & Hslot & Hheap & _). split; [by eexists | ].
    intros p [= <-]. rewrite Hheap.
    split; [apply is_fresh | ]. split; [apply dom_insert_L | ].
    split; [ | done]. intros q Hq. by rewrite lookup_insert_ne.
  - destruct gp_event0 as (-> & _). split; [ | done].
    intros (r & Hin & Hkey). apply list_find_None in Hfind.
    rewrite Forall_forall in Hfind. by destruct (Hfind r Hin).
Qed.

Lemma find_after_skipped (skipped rest : list InputEvent_t)
    (r : InputEvent_t) :
  Forall (λ r, type r ≠ EV_KEY) skipped → type r = EV_KEY →
  list_find is_key (skipped ++ r :: rest) = Some (length skipped, r).
Proof.
  intros Hs Hr. induction Hs as [ | x l Hx Hl IH]; cbn.
  - by rewrite decide_True.
  - rewrite decide_False by done. by rewrite IH.
Qed.

Lemma find_all_skipped (skipped : list InputEvent_t) :
  Forall (λ r, type r ≠ EV_KEY) skipped → list_find is_key skipped = None.
Proof.
  intros Hs. induction Hs as [ | x l Hx Hl IH]; cbn; [done | ].
  rewrite decide_False by done. by rewrite IH.
Qed.

(** C7. Records that are not key records are passed over inside one
    call: whatever run of them stands before the first key record, the
    call returns that key record's event and leaves the cursor behind it;
    when only such records are left in the batch, the call returns
    NYX_ERROR_NONE without an event and with the batch consumed. *)
Theorem keys_get_event_skips_non_key (fuel k : nat) (d : keys_device_t)
    (e : option ptr) (m : machine) :
  Inv d m → calloc_script os (callocs_done m) = true →
  refill_settles os m k → (k + Z.to_nat MAX_EVENTS < fuel)%nat →
  ∃ d' e' m' got,
    keys_get_event os fuel (Some d) e m
    = Returned (NYX_ERROR_NONE, d', e', m') ∧
    read_log m' = read_log m ++ got ∧
    ∀ skipped, Forall (λ r, type r ≠ EV_KEY) skipped →
      (∀ r rest, pending m ++ got = skipped ++ r :: rest → type r = EV_KEY →
         ∃ p, e' = Some p ∧ heap m' !! p = Some (event_of r) ∧
              pending m' = rest) ∧
      (pending m ++ got = skipped → e' = e ∧ pending m' = []).
Proof.
  intros HInv Hc Hs Hfuel.
  destruct (keys_get_event_returns os fuel k d e m HInv Hc Hs Hfuel)
    as (d' & e' & m' & Hcall).
  destruct (keys_get_event_post os _ _ _ _ _ _ _ _ HInv Hcall)
    as (_ & _ & got & d2 & m2 & [] & _ & _).
  exists d', e', m', got. split; [done | ]. split; [done | ].
  cbn zeta in gp_event0. intros skipped Hsk. split.
  - intros r rest Heq Hr.
    rewrite Heq, (find_after_skipped _ _ _ Hsk Hr) in gp_event0.
    destruct gp_event0 as (-> & _ & -> & ->). eexists. split; [done | ].
    split; [by rewrite lookup_insert_eq | ].
    replace (S (length skipped)) with (length skipped + 1)%nat by lia.
    by rewrite <- drop_drop, drop_app_length.
  - intros Heq. rewrite Heq, (find_all_skipped _ Hsk) in gp_event0.
    by destruct gp_event0 as (-> & _ & _ & ->).
Qed.

(** C9, as the code has it. A call made with a non-null device handle
    whose allocation succeeds and whose read loop ends returns
    NYX_ERROR_NONE, whatever the read gave (a failure, no data, no key
    record); and when no key record is left to visit, the caller's cell
    holds what it held before the call. *)
Theorem keys_get_event_success_code (fuel k : nat) (d : keys_device_t)
    (e : option ptr) (m : machine) :
  Inv d m → calloc_script os (callocs_done m) = true →
  refill_settles os m k → (k + Z.to_nat MAX_EVENTS < fuel)%nat →
  ∃ d' e' m' got,
    keys_get_event os fuel (Some d) e m
    = Returned (NYX_ERROR_NONE, d', e', m') ∧
    read_log m' = read_log m ++ got ∧
    (Forall (λ r, type r ≠ EV_KEY) (pending m ++ got) → e' = e).
Proof.
  intros HInv Hc Hs Hfuel.
  destruct (keys_get_event_returns os fuel k d e m HInv Hc Hs Hfuel)
    as (d' & e' & m' & Hcall).
  destruct (keys_get_event_post os _ _ _ _ _ _ _ _ HInv Hcall)
    as (_ & _ & got & d2 & m2 & [] & _ & _).
  exists d', e', m', got. split; [done | ]. split; [done | ].
  intros Hnone. cbn zeta in gp_event0.
  rewrite (find_all_skipped _ Hnone) in gp_event0.
  by destruct gp_event0 as (-> & _).
Qed.

(** C8, as the code has it. When the allocation of the event fails, the
    call does not return an error: once its read loop has ended, the
    assertion on the new pointer fails and the process is aborted. *)
Theorem keys_get_event_allocation_failure (fuel k : nat)
    (d : keys_device_t) (e : option ptr) (m : machine) :
  Inv d m → calloc_script os (callocs_done m) = false →
  refill_settles os m k → (k + Z.to_nat MAX_EVENTS < fuel)%nat →
  keys_get_event os fuel (Some d) e m = Aborted.
Proof.
  intros HInv Hc Hs Hfuel.
  pose proof (keys_get_event_ends os fuel k d e m HInv Hs Hfuel) as H.
  by rewrite Hc in H.
Qed.

(** C4, as the code has it. A call polls the descriptor at most once,
    with a zero timeout. When the descriptor is readable, it asks [read]
    for at most MAX_EVENTS records and repeats the call of [read] while
    it is interrupted: if the first [k] reads fail with EINTR and the next
    one brings data or fails otherwise, the call ends (it returns, or
    aborts on the failed assertion) after at most [k + 1] reads. *)
Theorem keys_get_event_bounded (fuel k : nat) (d : keys_device_t)
    (e : option ptr) (m : machine) :
  Inv d m →
  (event_iter m = 0 →
   0 < ret_val (poll_script os (polls_done m)) →
   Z.land (revents (poll_script os (polls_done m))) POLLIN ≠ 0 →
   interrupted os m k ∧
   match read_script os (reads_done m + k) with
   | ReadError err => err ≠ EINTR
   | ReadData _ _ _ as r => 0 < read_returns (record_size * MAX_EVENTS) r
   end) →
  (k + Z.to_nat MAX_EVENTS < fuel)%nat →
  keys_get_event os fuel (Some d) e m = Aborted ∨
  ∃ d' e' m',
    keys_get_event os fuel (Some d) e m
    = Returned (NYX_ERROR_NONE, d', e', m') ∧
    (polls_done m' ≤ S (polls_done m))%nat ∧
    (reads_done m' ≤ reads_done m + k + 1)%nat.
Proof.
  intros HInv Hread Hfuel.
  assert (refill_settles os m k) as Hs.
  { intros Hz Hr Hp. destruct (Hread Hz Hr Hp) as [Hk Hlast]. split.
    - by apply interrupted_retried.
    - destruct (read_script os (reads_done m + k)) as [recs partial | err].
      + by apply Z.leb_gt.
      + by apply Z.eqb_neq. }
  pose proof (keys_get_event_ends os fuel k d e m HInv Hs Hfuel) as H.
  destruct (calloc_script os (callocs_done m)); [right | by left].
  destruct H as (d' & e' & m' & Hcall). exists d', e', m'.
  split; [done | ].
  destruct (keys_get_event_post os _ _ _ _ _ _ _ _ HInv Hcall)
    as (_ & _ & got & d2 & m2 & [] & Hrefill & Hreads).
  split.
  - destruct (Z.eq_dec (event_iter m) 0) as [Hz | Hnz].
    + rewrite gp_refill0 by done. lia.
    + destruct (gp_iterating0 Hnz) as (_ & -> & _). lia.
  - rewrite Hreads.
    by apply (refill_reads os fuel k d d2 m m2 (inv_length d m HInv) Hs).
Qed.

End Calls.

(** ** The reader, case by case *)

Section ReaderCases.
Context `{abi : nyx_abi}.
Variable os : os_script.

(** C5. [read_input_event]: when the zero-timeout poll reports the source
    not ready (nothing to report, or no POLLIN among the events), the
    count is 0 at once and no read is made. When it is
    ready, reads interrupted by EINTR are repeated and leave no trace in
    the result: after any number [k] of them, a read failing otherwise
    gives -1, one call of [nyx_error] and no record stored, and a read of
    [rd > 0] bytes into a buffer of at least [maxEvents] records gives the
    count [rd / sizeof (InputEvent_t)] with that many records stored at
    the front of the buffer; the bytes of an incomplete record change the
    record behind them, and the buffer is otherwise as before. A count of
    -1 gives the loop of [keys_get_event] nothing to visit. *)
Theorem read_input_event_cases (buf : list InputEvent_t) (maxEvents : Z)
    (m : machine) :
  (ret_val (poll_script os (polls_done m)) <= 0 ∨
   Z.land (revents (poll_script os (polls_done m))) POLLIN = 0 →
   ∀ fuel,
     read_input_event os fuel (Some buf) maxEvents m
     = Returned (0, Some buf, count_poll m)) ∧
  (0 < ret_val (poll_script os (polls_done m)) →
   Z.land (revents (poll_script os (polls_done m))) POLLIN ≠ 0 →
   0 <= maxEvents →
   ∀ k fuel, interrupted os m k → (k < fuel)%nat →
     match read_script os (reads_done m + k) with
     | ReadError err =>
         err ≠ EINTR →
         ∃ m',
           read_input_event os fuel (Some buf) maxEvents m
           = Returned (-1, Some buf, m') ∧
           read_log m' = read_log m ∧ nyx_errors m' = S (nyx_errors m)
     | ReadData recs partial torn as r =>
         let rd := read_returns (record_size * maxEvents) r in
         let got := take (Z.to_nat (rd / record_size)) recs in
         0 < rd → maxEvents <= Z.of_nat (length buf) →
         ∃ buf' m',
           read_input_event os fuel (Some buf) maxEvents m
           = Returned (rd / record_size, Some buf', m') ∧
           take (length got) buf' = got ∧
           buf' !! length got
           = (if rd mod record_size =? 0 then id else torn)
               <$> buf !! length got ∧
           drop (S (length got)) buf' = drop (S (length got)) buf ∧
           length buf' = length buf ∧
           read_log m' = read_log m ++ got ∧
           Z.of_nat (length got) = rd / record_size ∧
           nyx_errors m' = nyx_errors m
     end) ∧
  (∀ fuel d e m0,
     event_count m0 <= event_iter m0 →
     keys_get_event_loop (S fuel) d e m0 = Returned (d, e, m0)).
Proof.
  split; [ | split].
  - intros Hr fuel. unfold read_input_event, sys_poll.
    destruct (Z.leb_spec (ret_val (poll_script os (polls_done m))) 0);
      [done | ].
    destruct Hr as [Hr | ->]; [lia | done].
  - intros Hr Hp Hmax k fuel Hk Hfuel. unfold read_input_event, sys_poll.
    apply Z.leb_gt in Hr as ->. apply Z.eqb_neq in Hp as ->. cbn [negb].
    destruct (read_loop_retries os k (fuel - k) buf maxEvents 0
                (count_poll m) Hmax) as (mk & [] & E).
    { by apply interrupted_retried. }
    replace (k + (fuel - k))%nat with fuel in E by lia. rewrite E.
    destruct (fuel - k)%nat as [ | f] eqn:Hf; [lia | ].
    cbn in ra_reads0, ra_log0, ra_errors0. rewrite <- ra_reads0.
    destruct (read_script os (reads_done mk)) as [recs partial torn | err]
      eqn:Hrs.
    + set (rd := read_returns _ _). intros Hrd Hcap.
      destruct (stored_fits maxEvents partial recs buf torn Hcap)
        as [buf' Hst].
      cbv zeta in Hst. change (Z.min _ _) with rd in Hst.
      rewrite Z.max_r in Hst by lia.
      exists buf'. eexists. split;
        [exact (read_loop_reads os f recs buf buf' maxEvents 0 partial torn
                  mk Hrs Hrd Hst)
        | ].
      apply stored_Some in Hst as (Hl & Ht & Hn & Hd).
      split; [done | ]. split; [done | ]. split; [done | ].
      split; [done | ].
      cbn [read_log nyx_errors count_read]. rewrite ra_log0, ra_errors0.
      split; [done | ]. split; [ | done].
      pose proof (read_quot_le (record_size * maxEvents) partial recs).
      assert (0 <= rd / record_size)
        by (apply Z.div_pos; [lia | apply record_size_pos]).
      rewrite length_take. unfold rd, read_returns in *. lia.
    + intros Herr. eexists. split;
        [exact (read_loop_fails os f buf maxEvents 0 err mk Hrs Herr) | ].
      cbn. rewrite ra_log0, ra_errors0. by rewrite app_nil_r.
  - intros fuel d e m0 Hge. cbn.
    by apply Z.ltb_ge in Hge as ->.
Qed.

End ReaderCases.

(** ** Sequences of calls *)

Section Sessions.
Context `{abi : nyx_abi}.
Variable os : os_script.

Lemma filter_find_Some (l : list InputEvent_t) (i : nat) (r : InputEvent_t) :
  list_find is_key l = Some (i, r) →
  filter is_key l = r :: filter is_key (drop (S i) l).
Proof.
  revert i. induction l as [ | x l IH]; intros i; [done | ].
  cbn [list_find]. destruct (decide (is_key x)) as [Hx | Hx].
  - intros [= <- <-]. by rewrite filter_cons_True.
  - rewrite filter_cons_False by done.
    destruct (list_find is_key l) as [[j y] | ]; [ | done].
    intros [= <- <-]. by apply IH.
Qed.

Lemma filter_find_None (l : list InputEvent_t) :
  list_find is_key l = None → filter is_key l = [].
Proof.
  induction l as [ | x l IH]; [done | ].
  cbn [list_find]. destruct (decide (is_key x)) as [Hx | Hx]; [done | ].
  rewrite filter_cons_False by done.
  destruct (list_find is_key l) as [[j y] | ]; [done | ].
  intros _. by apply IH.
Qed.

Lemma serve_fifo (fuel : nat) (r : request) (s s' : session) :
  Inv (dev s) (mach s) → fifo s → serve os fuel r s = Returned s' →
  Inv (dev s') (mach s') ∧ fifo s'.
Proof.
  intros HInv Hfifo. unfold serve, fifo in *. destruct r as [ | e].
  - destruct (keys_get_event os fuel _ None _) as [[[[err d'] e'] m'] | | | ]
      eqn:Hcall; cbn [bind]; try done.
    destruct (keys_get_event_post os _ _ _ _ _ _ _ _ HInv Hcall)
      as (_ & _ & got & d2 & m2 & [] & _ & _).
    cbn zeta in gp_event0.
    destruct (list_find is_key (pending (mach s) ++ got)) as [[i x] | ]
      eqn:Hfind.
    + destruct gp_event0 as (-> & _ & Hheap & Hpend).
      rewrite Hheap, lookup_insert_eq. intros [= <-]. cbn.
      split; [done | ].
      rewrite Hpend, gp_log0, <- app_assoc. cbn [app].
      change (event_of x :: ?l) with (event_of <$> (x :: filter is_key
        (drop (S i) (pending (mach s) ++ got)))).
      rewrite <- (filter_find_Some _ _ _ Hfind).
      by rewrite !filter_app, !fmap_app, app_assoc, Hfifo.
    + destruct gp_event0 as (-> & _ & _ & Hpend).
      intros [= <-]. cbn. split; [done | ].
      apply filter_find_None in Hfind.
      rewrite filter_app in Hfind. apply app_eq_nil in Hfind as [Hf1 Hf2].
      rewrite Hpend, gp_log0, filter_app, fmap_app, Hf2, <- Hfifo, Hf1.
      rewrite filter_nil. cbn [fmap list_fmap]. by rewrite !app_nil_r.
  - unfold keys_release_event. destruct e as [a | ]; cbn [bind].
    + destruct (heap (mach s) !! a); cbn [bind]; [ | done].
      intros [= <-]. cbn. split; [by destruct HInv | done].
    + by intros [= <-].
Qed.

Lemma run_fifo (fuel : nat) (rs : list request) (s s' : session) :
  Inv (dev s) (mach s) → fifo s → run os fuel rs s = Returned s' →
  Inv (dev s') (mach s') ∧ fifo s'.
Proof.
  revert s. induction rs as [ | r rs IH]; intros s HInv Hfifo; cbn.
  - by intros [= <-].
  - destruct (serve os fuel r s) as [s1 | | | ] eqn:E; cbn [bind]; try done.
    destruct (serve_fifo _ _ _ _ HInv Hfifo E) as [HInv1 Hfifo1].
    by apply IH.
Qed.

(** Every state a caller can reach is a state between two calls. *)
Lemma run_Inv (fuel : nat) (rs : list request) (s : session) :
  run os fuel rs session_init = Returned s → Inv (dev s) (mach s).
Proof.
  intros Hrun.
  by destruct (run_fifo fuel rs session_init s Inv_init eq_refl Hrun).
Qed.

(** C6. Over any sequence of calls from program start, the events the
    caller has read are, in order and one for one, the events of the key
    records read from the source so far, up to those of the current batch
    that the cursor has not reached yet: no event is reordered, dropped,
    repeated or merged with another, within a batch or across batches. *)
Theorem keys_get_event_in_order (fuel : nat) (rs : list request)
    (s : session) :
  run os fuel rs session_init = Returned s →
  delivered s ++ (event_of <$> filter is_key (pending (mach s)))
  = event_of <$> filter is_key (read_log (mach s)).
Proof.
  intros Hrun.
  by destruct (run_fifo fuel rs session_init s Inv_init eq_refl Hrun).
Qed.

End Sessions.

(** ** The theorems at concrete inputs *)

(** The scenarios of the specification. *)
Example scenario_A :
  delivered (returned_session
    (run (abi := sample_abi) os_volume 5 [Get; Get] session_init))
  = [ {| parent_type := 7; key_type := NYX_KEY_TYPE_CUSTOM; key := 1004;
         key_is_press := true; key_is_auto_repeat := false |};
      {| parent_type := 7; key_type := NYX_KEY_TYPE_CUSTOM; key := 1004;
         key_is_press := false; key_is_auto_repeat := false |} ].
Proof. vm_compute. reflexivity. Qed.

Example scenario_B :
  delivered (returned_session
    (run (abi := sample_abi) os_skip 5 [Get] session_init))
  = [ {| parent_type := 7; key_type := NYX_KEY_TYPE_STANDARD; key := 30;
         key_is_press := true; key_is_auto_repeat := false |} ].
Proof. vm_compute. reflexivity. Qed.

Example scenario_C :
  delivered (returned_session
    (run (abi := sample_abi) os_repeat 5 [Get] session_init))
  = [ {| parent_type := 7; key_type := NYX_KEY_TYPE_CUSTOM; key := 1001;
         key_is_press := true; key_is_auto_repeat := true |} ].
Proof. vm_compute. reflexivity. Qed.

Example scenario_D :
  first_call (script_of [] [] []) 1
  = Returned (NYX_ERROR_NONE, returned_device (first_call (script_of [] [] []) 1),
              None, returned_machine (first_call (script_of [] [] []) 1)) ∧
  delivered (returned_session
    (run (abi := sample_abi) (script_of [] [] []) 1 [Get] session_init)) = [].
Proof. split; vm_compute; reflexivity. Qed.

Lemma settles_now `{abi : nyx_abi} (os : os_script) (m : machine) :
  retried (record_size * MAX_EVENTS) (read_script os (reads_done m)) = false →
  refill_settles os m 0.
Proof.
  intros H _ _ _. split; [intros j Hj; lia | ]. by rewrite Nat.add_0_r.
Qed.

Lemma settles_not_ready `{abi : nyx_abi} (os : os_script) (m : machine)
    (k : nat) :
  ret_val (poll_script os (polls_done m)) <= 0 → refill_settles os m k.
Proof. intros H _ H' _. lia. Qed.

(** C1 at the volume-up code, at KEY_A and at the shift code. *)
Lemma lookup_key_table_witness :
  (KEY_VOLUMEUP, NYX_KEYS_CUSTOM_KEY_VOL_UP) ∈ custom_key_table ∧
  lookup_key (abi := sample_abi) device_init KEY_VOLUMEUP 1
    NYX_KEY_TYPE_STANDARD = (1004, NYX_KEY_TYPE_CUSTOM) ∧
  (30 ∉ custom_codes) ∧ 30 ≠ KEY_LEFTSHIFT ∧
  lookup_key (abi := sample_abi) device_init 30 1 NYX_KEY_TYPE_STANDARD
  = (30, NYX_KEY_TYPE_STANDARD) ∧
  lookup_key (abi := sample_abi) device_init KEY_LEFTSHIFT 1
    NYX_KEY_TYPE_STANDARD = (KEY_LEFTSHIFT, NYX_KEY_TYPE_STANDARD).
Proof.
  assert ((KEY_VOLUMEUP, NYX_KEYS_CUSTOM_KEY_VOL_UP) ∈ custom_key_table)
    as Hin by (unfold custom_key_table; set_solver).
  assert (30 ∉ custom_codes) as Hout.
  { unfold custom_codes, custom_key_table. cbn [fmap list_fmap fst].
    rewrite !not_elem_of_cons. unfold_keys.
    repeat split; try discriminate. apply not_elem_of_nil. }
  assert (30 ≠ KEY_LEFTSHIFT) as Hshift by discriminate.
  split; [exact Hin | ].
  split; [exact (proj1 (lookup_key_table (abi := sample_abi) device_init
                          KEY_VOLUMEUP 1) _ Hin) | ].
  split; [exact Hout | ]. split; [exact Hshift | ].
  split; [exact (proj1 (proj2 (lookup_key_table (abi := sample_abi)
                                 device_init 30 1)) Hout Hshift) | ].
  exact (proj2 (proj2 (lookup_key_table (abi := sample_abi) device_init
                         KEY_LEFTSHIFT 1))).
Defined.

(** C3 at the auto-repeat record of scenario C. *)
Lemma keys_get_event_flags_witness :
  let call := first_call os_repeat 5 in
  let m := machine_init in
  let m' := returned_machine call in
  let p := 1%positive in
  Inv device_init m ∧
  call = Returned (NYX_ERROR_NONE, returned_device call, Some p, m') ∧
  ∃ got i r ev,
    read_log m' = read_log m ++ got ∧
    list_find is_key (pending m ++ got) = Some (i, r) ∧
    heap m' !! p = Some ev ∧
    key_is_press ev = negb (value r =? 0) ∧
    key_is_auto_repeat ev = (1 <? value r) ∧
    (value r = 0 → key_is_press ev = false ∧ key_is_auto_repeat ev = false) ∧
    (value r = 1 → key_is_press ev = true ∧ key_is_auto_repeat ev = false) ∧
    (1 < value r → key_is_press ev = true ∧ key_is_auto_repeat ev = true) ∧
    (key_is_auto_repeat ev = true → key_is_press ev = true).
Proof.
  cbv zeta.
  assert (first_call os_repeat 5
          = Returned (NYX_ERROR_NONE, returned_device (first_call os_repeat 5),
                      Some 1%positive,
                      returned_machine (first_call os_repeat 5))) as Hcall
    by (vm_compute; reflexivity).
  split; [exact Inv_init | ]. split; [exact Hcall | ].
  exact (keys_get_event_flags (abi := sample_abi) os_repeat 5 device_init _
           machine_init _ NYX_ERROR_NONE 1%positive Inv_init Hcall).
Defined.

(** C10 at a key record with value -1. *)
Lemma keys_get_event_negative_value_witness :
  let call := first_call os_negative 5 in
  let m := machine_init in
  let m' := returned_machine call in
  let p := 1%positive in
  Inv device_init m ∧
  call = Returned (NYX_ERROR_NONE, returned_device call, Some p, m') ∧
  ∃ got i r ev,
    read_log m' = read_log m ++ got ∧
    list_find is_key (pending m ++ got) = Some (i, r) ∧
    heap m' !! p = Some ev ∧
    (value r < 0 → key_is_press ev = true ∧ key_is_auto_repeat ev = false).
Proof.
  cbv zeta.
  assert (first_call os_negative 5
          = Returned (NYX_ERROR_NONE,
                      returned_device (first_call os_negative 5),
                      Some 1%positive,
                      returned_machine (first_call os_negative 5))) as Hcall
    by (vm_compute; reflexivity).
  split; [exact Inv_init | ]. split; [exact Hcall | ].
  exact (keys_get_event_negative_value (abi := sample_abi) os_negative 5
           device_init _ machine_init _ NYX_ERROR_NONE 1%positive Inv_init
           Hcall).
Defined.

(** The event of the record with value -1, as computed. *)
Example negative_value_event :
  heap (returned_machine (first_call os_negative 5)) !! 1%positive
  = Some {| parent_type := 7; key_type := NYX_KEY_TYPE_STANDARD; key := 30;
            key_is_press := true; key_is_auto_repeat := false |}.
Proof. vm_compute. reflexivity. Qed.

(** C2, refuted as stated: two calls without a release in between leave
    two distinct events live, both created by [keys_get_event]. *)
Lemma two_events_live :
  ∃ s p1 p2,
    run (abi := sample_abi) os_volume 5 [Get; Get] session_init = Returned s ∧
    held s = [p1; p2] ∧ p1 ≠ p2 ∧
    is_Some (heap (mach s) !! p1) ∧ is_Some (heap (mach s) !! p2).
Proof.
  eexists _, 1%positive, 2%positive.
  split; [vm_compute; reflexivity | ]. cbn [held mach].
  split; [reflexivity | ]. split; [discriminate | ].
  split; vm_compute; eexists; reflexivity.
Qed.

(** Calls that find nothing allocate as well: the block stays in the
    slot, and the next refill overwrites the pointer to it. *)
Example idle_calls_leave_blocks :
  ∃ s,
    run (abi := sample_abi) (script_of [] [] []) 1 [Get; Get; Get]
      session_init = Returned s ∧
    held s = [] ∧ delivered s = [] ∧ size (heap (mach s)) = 3%nat.
Proof. eexists. split; [vm_compute; reflexivity | done]. Qed.

(** The state after the first call of scenario A: the press is delivered
    and held by the caller (block 1), the release is left in the batch. *)
Lemma Inv_volume_1 : Inv volume_device_1 volume_machine_1.
Proof. split; vm_compute; done. Qed.

(** C2 as amended, at the second call of scenario A, made while the
    event of the first call is outstanding. *)
Lemma keys_get_event_fresh_event_witness :
  let d := volume_device_1 in
  let m := volume_machine_1 in
  Inv d m ∧ current_event_ptr d = None ∧
  calloc_script os_volume (callocs_done m) = true ∧
  refill_settles (abi := sample_abi) os_volume m 0 ∧
  (0 + Z.to_nat MAX_EVENTS < 65)%nat ∧
  ∃ d' e' m' got,
    keys_get_event (abi := sample_abi) os_volume 65 (Some d) None m
    = Returned (NYX_ERROR_NONE, d', e', m') ∧
    read_log m' = read_log m ++ got ∧
    ((∃ r, r ∈ pending m ++ got ∧ type r = EV_KEY) → is_Some e') ∧
    ∀ p, e' = Some p →
      (p ∉ dom (heap m)) ∧
      (dom (heap m') = {[p]} ∪ dom (heap m)) ∧
      (∀ q, q ≠ p → heap m' !! q = heap m !! q) ∧
      current_event_ptr d' = None.
Proof.
  cbv zeta.
  assert (current_event_ptr volume_device_1 = None) as Hslot by reflexivity.
  assert (calloc_script os_volume (callocs_done volume_machine_1) = true)
    as Hc by reflexivity.
  assert (refill_settles (abi := sample_abi) os_volume volume_machine_1 0)
    as Hs by (intros Hz; vm_compute in Hz; discriminate Hz).
  assert (0 + Z.to_nat MAX_EVENTS < 65)%nat as Hfuel
    by (unfold MAX_EVENTS; lia).
  split; [exact Inv_volume_1 | ]. split; [exact Hslot | ].
  split; [exact Hc | ]. split; [exact Hs | ]. split; [exact Hfuel | ].
  exact (keys_get_event_fresh_event (abi := sample_abi) os_volume 65 0
           volume_device_1 volume_machine_1 Inv_volume_1 Hslot Hc Hs Hfuel).
Defined.

(** That call, as computed: the outstanding event is block 1, the key
    record left in the batch is delivered in block 2 and block 1 is as it
    was. *)
Example second_event_beside_first :
  size (heap volume_machine_1) = 1%nat ∧
  pending volume_machine_1 = [key_record KEY_VOLUMEUP 0] ∧
  ∃ d' m',
    keys_get_event (abi := sample_abi) os_volume 65 (Some volume_device_1)
      None volume_machine_1
    = Returned (NYX_ERROR_NONE, d', Some 2%positive, m') ∧
    heap m' !! 1%positive = heap volume_machine_1 !! 1%positive ∧
    is_Some (heap m' !! 1%positive) ∧ size (heap m') = 2%nat.
Proof.
  split; [vm_compute; reflexivity | ]. split; [vm_compute; reflexivity | ].
  eexists _, _. split; [vm_compute; reflexivity | ].
  split; [vm_compute; reflexivity | ].
  split; [vm_compute; by eexists | vm_compute; reflexivity].
Qed.

#[local] Existing Instance sample_abi.

Lemma fuel_for_one_batch : (0 + Z.to_nat MAX_EVENTS < 65)%nat.
Proof. unfold MAX_EVENTS. lia. Qed.

(** C7 at scenario B: a synchronisation report before a key record. *)
Lemma keys_get_event_skips_non_key_witness :
  let os := os_skip in
  let d := device_init in
  let e := @None ptr in
  let m := machine_init in
  Inv d m ∧ calloc_script os (callocs_done m) = true ∧
  refill_settles os m 0 ∧ (0 + Z.to_nat MAX_EVENTS < 65)%nat ∧
  ∃ d' e' m' got,
    keys_get_event os 65 (Some d) e m
    = Returned (NYX_ERROR_NONE, d', e', m') ∧
    read_log m' = read_log m ++ got ∧
    ∀ skipped, Forall (λ r, type r ≠ EV_KEY) skipped →
      (∀ r rest, pending m ++ got = skipped ++ r :: rest → type r = EV_KEY →
         ∃ p, e' = Some p ∧ heap m' !! p = Some (event_of r) ∧
              pending m' = rest) ∧
      (pending m ++ got = skipped → e' = e ∧ pending m' = []).
Proof.
  cbv zeta.
  assert (refill_settles os_skip machine_init 0) as Hs
    by (apply settles_now; vm_compute; reflexivity).
  split; [exact Inv_init | ]. split; [reflexivity | ]. split; [exact Hs | ].
  split; [exact fuel_for_one_batch | ].
  exact (keys_get_event_skips_non_key os_skip 65 0 device_init None
           machine_init Inv_init eq_refl Hs fuel_for_one_batch).
Defined.

(** C9, refuted as stated: with a non-null handle, a failed read and a
    failed allocation, the call does not return NYX_ERROR_NONE; it is
    aborted. *)
Lemma no_success_code_without_memory :
  first_call os_read_error_no_memory 65 = Aborted ∧
  ¬ ∃ fuel d' e' m',
      first_call os_read_error_no_memory fuel
      = Returned (NYX_ERROR_NONE, d', e', m').
Proof.
  split; [vm_compute; reflexivity | ].
  intros (fuel & d' & e' & m' & Hcall).
  apply (keys_get_event_post os_read_error_no_memory) in Hcall
    as (_ & Hc & _); [ | exact Inv_init].
  vm_compute in Hc. discriminate.
Qed.

(** C9 as amended, at a call whose read fails with EIO. *)
Lemma keys_get_event_success_code_witness :
  let os := os_read_error in
  let d := device_init in
  let e := @None ptr in
  let m := machine_init in
  Inv d m ∧ calloc_script os (callocs_done m) = true ∧
  refill_settles os m 0 ∧ (0 + Z.to_nat MAX_EVENTS < 65)%nat ∧
  ∃ d' e' m' got,
    keys_get_event os 65 (Some d) e m
    = Returned (NYX_ERROR_NONE, d', e', m') ∧
    read_log m' = read_log m ++ got ∧
    (Forall (λ r, type r ≠ EV_KEY) (pending m ++ got) → e' = e).
Proof.
  cbv zeta.
  assert (refill_settles os_read_error machine_init 0) as Hs
    by (apply settles_now; vm_compute; reflexivity).
  split; [exact Inv_init | ]. split; [reflexivity | ]. split; [exact Hs | ].
  split; [exact fuel_for_one_batch | ].
  exact (keys_get_event_success_code os_read_error 65 0 device_init None
           machine_init Inv_init eq_refl Hs fuel_for_one_batch).
Defined.

(** C8, refuted as stated: when [calloc] fails, no error result reaches
    the caller; the process is aborted. *)
Lemma allocation_failure_not_reported :
  first_call os_no_memory 65 = Aborted ∧
  ¬ ∃ fuel err d' e' m',
      first_call os_no_memory fuel = Returned (err, d', e', m').
Proof.
  split; [vm_compute; reflexivity | ].
  intros (fuel & err & d' & e' & m' & Hcall).
  apply (keys_get_event_post os_no_memory) in Hcall
    as (_ & Hc & _); [ | exact Inv_init].
  vm_compute in Hc. discriminate.
Qed.

(** C8 as amended, at the first call of a program without memory. *)
Lemma keys_get_event_allocation_failure_witness :
  let os := os_no_memory in
  let d := device_init in
  let m := machine_init in
  Inv d m ∧ calloc_script os (callocs_done m) = false ∧
  refill_settles os m 0 ∧ (0 + Z.to_nat MAX_EVENTS < 65)%nat ∧
  keys_get_event os 65 (Some d) None m = Aborted.
Proof.
  cbv zeta.
  assert (refill_settles os_no_memory machine_init 0) as Hs
    by (apply settles_not_ready; vm_compute; discriminate).
  split; [exact Inv_init | ]. split; [reflexivity | ]. split; [exact Hs | ].
  split; [exact fuel_for_one_batch | ].
  exact (keys_get_event_allocation_failure os_no_memory 65 0 device_init None
           machine_init Inv_init eq_refl Hs fuel_for_one_batch).
Defined.

(** C4, refuted as stated: a read interrupted once is followed by a
    second read within the same call. *)
Lemma two_reads_in_one_call :
  ∃ d' e' m',
    first_call os_interrupted 65 = Returned (NYX_ERROR_NONE, d', e', m') ∧
    reads_done m' = 2%nat.
Proof. eexists _, _, _. split; vm_compute; reflexivity. Qed.

Lemma fuel_for_one_retry : (1 + Z.to_nat MAX_EVENTS < 66)%nat.
Proof. unfold MAX_EVENTS. lia. Qed.

(** C4 as amended, at a call whose first read is interrupted. *)
Lemma keys_get_event_bounded_witness :
  let os := os_interrupted in
  let d := device_init in
  let e := @None ptr in
  let m := machine_init in
  Inv d m ∧
  (event_iter m = 0 →
   0 < ret_val (poll_script os (polls_done m)) →
   Z.land (revents (poll_script os (polls_done m))) POLLIN ≠ 0 →
   interrupted os m 1 ∧
   match read_script os (reads_done m + 1) with
   | ReadError err => err ≠ EINTR
   | ReadData _ _ _ as r => 0 < read_returns (record_size * MAX_EVENTS) r
   end) ∧
  (1 + Z.to_nat MAX_EVENTS < 66)%nat ∧
  (keys_get_event os 66 (Some d) e m = Aborted ∨
   ∃ d' e' m',
     keys_get_event os 66 (Some d) e m
     = Returned (NYX_ERROR_NONE, d', e', m') ∧
     (polls_done m' ≤ S (polls_done m))%nat ∧
     (reads_done m' ≤ reads_done m + 1 + 1)%nat).
Proof.
  cbv zeta.
  assert (event_iter machine_init = 0 →
          0 < ret_val (poll_script os_interrupted (polls_done machine_init)) →
          Z.land (revents (poll_script os_interrupted
                             (polls_done machine_init))) POLLIN ≠ 0 →
          interrupted os_interrupted machine_init 1 ∧
          match read_script os_interrupted (reads_done machine_init + 1) with
          | ReadError err => err ≠ EINTR
          | ReadData _ _ _ as r => 0 < read_returns (record_size * MAX_EVENTS) r
          end) as Hread.
  { intros _ _ _. split; [ | vm_compute; reflexivity].
    intros j Hj. assert (j = 0%nat) as -> by lia. reflexivity. }
  split; [exact Inv_init | ]. split; [exact Hread | ].
  split; [exact fuel_for_one_retry | ].
  exact (keys_get_event_bounded os_interrupted 66 1 device_init None
           machine_init Inv_init Hread fuel_for_one_retry).
Defined.

(** C6 over two batches, with a release in between and a call that finds
    only a synchronisation report. *)
Lemma keys_get_event_in_order_witness :
  let rs := [Get; Get; Release (Some 1%positive); Get; Get] in
  let s := returned_session (run os_two_batches 5 rs session_init) in
  run os_two_batches 5 rs session_init = Returned s ∧
  delivered s ++ (event_of <$> filter is_key (pending (mach s)))
  = event_of <$> filter is_key (read_log (mach s)).
Proof.
  cbv zeta.
  assert (run os_two_batches 5
            [Get; Get; Release (Some 1%positive); Get; Get] session_init
          = Returned (returned_session (run os_two_batches 5
              [Get; Get; Release (Some 1%positive); Get; Get] session_init)))
    as Hrun by (vm_compute; reflexivity).
  split; [exact Hrun | ].
  exact (keys_get_event_in_order os_two_batches 5 _ _ Hrun).
Defined.

(** What that session delivers. *)
Example two_batches_delivered :
  delivered (returned_session
    (run os_two_batches 5 [Get; Get; Release (Some 1%positive); Get; Get]
       session_init))
  = [ event_of (key_record KEY_VOLUMEUP 1);
      event_of (key_record KEY_VOLUMEUP 0);
      event_of (key_record KEY_HOME 1) ].
Proof. vm_compute. reflexivity. Qed.

(** C5 at a read interrupted once and followed by a read of one record
    and seven bytes (23 bytes of the 1024 asked for: count 1) into the
    64 zeroed records of [raw_events]: the second record is torn. *)
Lemma read_input_event_cases_witness :
  let os := os_interrupted in
  let m := machine_init in
  let buf := raw_events machine_init in
  0 < ret_val (poll_script os (polls_done m)) ∧
  Z.land (revents (poll_script os (polls_done m))) POLLIN ≠ 0 ∧
  0 <= MAX_EVENTS ∧ interrupted os m 1 ∧ (1 < 2)%nat ∧
  0 < 23 ∧ MAX_EVENTS <= Z.of_nat (length buf) ∧
  ∃ buf' m',
    read_input_event os 2 (Some buf) MAX_EVENTS m
    = Returned (1, Some buf', m') ∧
    take 1 buf' = [key_record KEY_VOLUMEUP 1] ∧
    buf' !! 1%nat = torn_time 1 <$> buf !! 1%nat ∧
    drop 2 buf' = drop 2 buf ∧
    length buf' = length buf ∧
    read_log m' = read_log m ++ [key_record KEY_VOLUMEUP 1] ∧
    Z.of_nat (length [key_record KEY_VOLUMEUP 1]) = 1 ∧
    nyx_errors m' = nyx_errors m.
Proof.
  cbv zeta.
  assert (0 < ret_val (poll_script os_interrupted (polls_done machine_init)))
    as Hr by reflexivity.
  assert (Z.land (revents (poll_script os_interrupted
                             (polls_done machine_init))) POLLIN ≠ 0)
    as Hp by discriminate.
  assert (0 <= MAX_EVENTS) as Hmax by discriminate.
  assert (interrupted os_interrupted machine_init 1) as Hk.
  { intros j Hj. assert (j = 0%nat) as -> by lia. reflexivity. }
  assert (1 < 2)%nat as Hfuel by lia.
  assert (0 < 23) as Hrd by reflexivity.
  assert (MAX_EVENTS <= Z.of_nat (length (raw_events machine_init)))
    as Hcap by (vm_compute; discriminate).
  split; [exact Hr | ]. split; [exact Hp | ]. split; [exact Hmax | ].
  split; [exact Hk | ]. split; [exact Hfuel | ].
  split; [exact Hrd | ]. split; [exact Hcap | ].
  exact (proj1 (proj2 (read_input_event_cases os_interrupted
                         (raw_events machine_init) MAX_EVENTS machine_init))
           Hr Hp Hmax 1%nat 2%nat Hk Hfuel Hrd Hcap).
Defined.

(** C5 at concrete scripts: not ready; interrupted once, then a read of
    one record and seven bytes (23 bytes, count 1: the seven bytes change
    the time stamp of the second record); a failure with EIO. *)
Example read_input_event_not_ready :
  read_input_event (script_of [] [] []) 0 (Some [syn_record]) MAX_EVENTS
    machine_init
  = Returned (0, Some [syn_record], count_poll machine_init).
Proof. reflexivity. Qed.

Example read_input_event_interrupted :
  ∃ m',
    read_input_event os_interrupted 2 (Some [syn_record; syn_record])
      MAX_EVENTS machine_init
    = Returned (1, Some [key_record KEY_VOLUMEUP 1; torn_time 1 syn_record],
                m') ∧
    reads_done m' = 2%nat ∧ nyx_errors m' = 0%nat.
Proof. eexists. split; [vm_compute; reflexivity | done]. Qed.

Example read_input_event_failure :
  ∃ m',
    read_input_event os_read_error 1 (Some [syn_record]) MAX_EVENTS
      machine_init
    = Returned (-1, Some [syn_record], m') ∧ nyx_errors m' = 1%nat.
Proof. eexists. split; [vm_compute; reflexivity | done]. Qed.

(** ** When every read is retried *)

(** The loop of [read_input_event] has no exit for a read of 0 bytes: if
    from some state on every read is interrupted or returns 0 bytes, no
    amount of fuel makes it return. *)
Lemma read_loop_starved `{abi : nyx_abi} (os : os_script) (fuel : nat)
    (buf : list InputEvent_t) (maxEvents numEvents : Z) (m : machine) :
  0 <= maxEvents →
  (∀ j, retried (record_size * maxEvents)
          (read_script os (reads_done m + j)) = true) →
  read_loop os fuel buf maxEvents numEvents m = OutOfFuel.
Proof.
  intros Hmax. revert m. induction fuel as [ | fuel IH]; intros m Hall.
  - reflexivity.
  - destruct (read_loop_retry os fuel buf maxEvents numEvents m Hmax)
      as (m1 & [] & ->).
    { specialize (Hall 0%nat). by rewrite Nat.add_0_r in Hall. }
    apply IH. intros j. rewrite ra_reads0.
    replace (reads_done m + 1 + j)%nat with (reads_done m + S j)%nat by lia.
    apply Hall.
Qed.

(** A readable descriptor at end of file: every read returns 0 bytes and
    the first call of [keys_get_event] never returns. *)
Example end_of_file_never_returns :
  ¬ ∃ fuel x, first_call (script_of [ready] [] []) fuel = Returned x.
Proof.
  intros (fuel & x & Hcall). unfold first_call, keys_get_event in Hcall.
  cbn [event_iter machine_init Z.eqb] in Hcall.
  unfold read_input_event in Hcall. cbn [sys_poll] in Hcall.
  change (ret_val _ <=? 0) with false in Hcall.
  change (negb _) with true in Hcall. cbv iota in Hcall.
  rewrite read_loop_starved in Hcall; [done | done | ].
  intros j. cbn. by destruct j as [ | [ | j]].
Qed.

(** * Further properties of the module *)

(** ** What a call does to the heap *)

Section CallsAndHeap.
Context `{abi : nyx_abi}.
Variable os : os_script.

Lemma keys_get_event_Inv (fuel : nat) (d d' : keys_device_t)
    (e e' : option ptr) (m m' : machine) (err : nyx_error_t) :
  Inv d m →
  keys_get_event os fuel (Some d) e m = Returned (err, d', e', m') →
  Inv d' m'.
Proof.
  intros HInv Hcall.
  by destruct (keys_get_event_post os _ _ _ _ _ _ _ _ HInv Hcall)
    as (_ & _ & got & d2 & m2 & [] & _ & _).
Qed.

(** The block a returning call allocates, and where it is afterwards. *)
Lemma keys_get_event_new_block (fuel : nat) (d d' : keys_device_t)
    (e e' : option ptr) (m m' : machine) (err : nyx_error_t) :
  Inv d m →
  keys_get_event os fuel (Some d) e m = Returned (err, d', e', m') →
  ∃ p ev,
    (p ∉ dom (heap m)) ∧
    heap m' = <[p := ev]> (heap m) ∧
    callocs_done m' = S (callocs_done m) ∧
    (e' = Some p ∧ current_event_ptr d' = None ∨
     e' = e ∧ current_event_ptr d' = Some p).
Proof.
  intros HInv Hcall.
  destruct (keys_get_event_post os _ _ _ _ _ _ _ _ HInv Hcall)
    as (_ & _ & got & d2 & m2 & [] & _ & _).
  cbn zeta in gp_event0.
  pose proof (is_fresh (dom (heap m))) as Hfresh.
  set (p := fresh (dom (heap m))) in *.
  destruct (list_find is_key (pending m ++ got)) as [[i r] | ].
  - destruct gp_event0 as (-> & Hslot & Hheap & _).
    exists p, (event_of r). rewrite Hheap.
    split; [done | ]. split; [done | ]. split; [done | by left].
  - destruct gp_event0 as (-> & Hslot & Hheap & _).
    exists p, (set_parent_type NYX_EVENT_KEYS zero_event). rewrite Hheap.
    split; [done | ]. split; [done | ]. split; [done | by right].
Qed.


(** X2. The block of a call that delivers nothing is lost by the next
    call: it is still allocated afterwards, but it is no longer in the
    slot, and it is not the event handed out; the caller never had its
    address. *)
Theorem keys_get_event_loses_idle_block (fuel1 fuel2 : nat)
    (d d1 d2 : keys_device_t) (m m1 m2 : machine) (e2 : option ptr)
    (err1 err2 : nyx_error_t) :
  Inv d m →
  keys_get_event os fuel1 (Some d) None m = Returned (err1, d1, None, m1) →
  keys_get_event os fuel2 (Some d1) None m1 = Returned (err2, d2, e2, m2) →
  ∃ p,
    current_event_ptr d1 = Some p ∧ (p ∉ dom (heap m)) ∧
    is_Some (heap m2 !! p) ∧
    current_event_ptr d2 ≠ Some p ∧ e2 ≠ Some p.
Proof.
  intros HInv Hcall1 Hcall2.
  pose proof (keys_get_event_Inv _ _ _ _ _ _ _ _ HInv Hcall1) as HInv1.
  destruct (keys_get_event_new_block _ _ _ _ _ _ _ _ HInv Hcall1)
    as (p & ev & Hp & Hheap1 & _ & [[? _] | [_ Hslot1]]); [done | ].
  destruct (keys_get_event_new_block _ _ _ _ _ _ _ _ HInv1 Hcall2)
    as (q & ev2 & Hq & Hheap2 & _ & Hwhere).
  assert (q ≠ p) as Hqp.
  { intros ->. apply Hq, elem_of_dom.
    rewrite Hheap1, lookup_insert_eq. by eexists. }
  exists p. split; [done | ]. split; [done | ].
  split; [ | destruct Hwhere as [[He Hs] | [He Hs]]; rewrite He, Hs;
               split; congruence].
  rewrite Hheap2, lookup_insert_ne, Hheap1, lookup_insert_eq by done.
  by eexists.
Qed.


(** X9. Records that are not key records at the end of a batch cost a
    call of their own: a call that starts inside a batch with only such
    records left delivers nothing, makes no poll and no read, and only
    resets the cursor; input that arrived meanwhile waits for the call
    after it. *)
Theorem keys_get_event_trailing_records (fuel : nat) (d d' : keys_device_t)
    (e e' : option ptr) (m m' : machine) (err : nyx_error_t) :
  Inv d m → event_iter m ≠ 0 →
  Forall (λ r, type r ≠ EV_KEY) (pending m) →
  keys_get_event os fuel (Some d) e m = Returned (err, d', e', m') →
  e' = e ∧ event_iter m' = 0 ∧
  polls_done m' = polls_done m ∧ reads_done m' = reads_done m ∧
  read_log m' = read_log m.
Proof.
  intros HInv Hnz Htail Hcall.
  destruct (keys_get_event_post os _ _ _ _ _ _ _ _ HInv Hcall)
    as (_ & _ & got & d2 & m2 & [] & _ & _).
  destruct (gp_iterating0 Hnz) as (-> & Hpolls & Hreads).
  cbn zeta in gp_event0. rewrite app_nil_r in *.
  rewrite (find_all_skipped _ Htail) in gp_event0.
  destruct gp_event0 as (-> & Hslot & _ & _).
  split; [done | ]. split; [ | done].
  destruct (Z.eq_dec (event_iter m') 0) as [ | Hnz']; [done | ].
  destruct gp_inv0. rewrite (inv_slot0 Hnz') in Hslot. done.
Qed.

End CallsAndHeap.

(** ** Faults and calls that do not end *)

Section Faults.
Context `{abi : nyx_abi}.
Variable os : os_script.

(** A [read] of at most [maxEvents] records into an array of at least
    that many stores nothing outside it. *)
Lemma sys_read_defined (buf : list InputEvent_t) (maxEvents : Z)
    (m : machine) :
  maxEvents <= Z.of_nat (length buf) →
  ∃ x, sys_read os (record_size * maxEvents) buf m = Returned x.
Proof.
  intros Hcap. unfold sys_read.
  destruct (read_script os (reads_done m)) as [recs partial torn | err];
    [ | by eexists].
  destruct (stored_fits maxEvents partial recs buf torn Hcap) as [buf' Hst].
  cbv zeta in Hst. rewrite Hst. by eexists.
Qed.

Lemma read_loop_no_fault (fuel : nat) (buf : list InputEvent_t)
    (maxEvents numEvents : Z) (m : machine) :
  maxEvents <= Z.of_nat (length buf) →
  read_loop os fuel buf maxEvents numEvents m ≠ Undefined ∧
  read_loop os fuel buf maxEvents numEvents m ≠ Aborted.
Proof.
  revert buf m. induction fuel as [ | fuel IH]; intros buf m Hcap; [done | ].
  cbn [read_loop].
  destruct (sys_read_defined buf maxEvents m Hcap) as [[[rd buf1] m1] Hread].
  rewrite Hread. cbn [bind]. apply sys_read_length in Hread.
  destruct (0 <? rd); [done | ].
  destruct ((rd <? 0) && negb (errno m1 =? EINTR)); [done | ].
  apply IH. lia.
Qed.

Lemma refill_no_fault (fuel : nat) (d : keys_device_t) (m : machine) :
  length (raw_events m) = Z.to_nat MAX_EVENTS →
  refill os fuel d m ≠ Undefined ∧ refill os fuel d m ≠ Aborted.
Proof.
  intros Hlen. unfold refill, read_input_event, sys_poll.
  destruct (event_iter m =? 0); [ | done].
  destruct (ret_val _ <=? 0); [done | ].
  destruct (negb _); [ | done].
  pose proof (read_loop_no_fault fuel (raw_events m) MAX_EVENTS 0
                (count_poll m)) as [H1 H2]; [cbn; lia | ].
  by destruct (read_loop os fuel _ _ _ _) as [[[n b] m1] | | | ].
Qed.

(** A fault of the loop does not go away with more fuel. *)
Lemma keys_get_event_loop_fault_mono (fuel fuel' : nat) (d : keys_device_t)
    (e : option ptr) (m : machine) :
  (fuel ≤ fuel')%nat →
  keys_get_event_loop fuel d e m = Undefined →
  keys_get_event_loop fuel' d e m = Undefined.
Proof.
  revert fuel' m. induction fuel as [ | fuel IH]; intros fuel' m Hle; [done | ].
  destruct fuel' as [ | fuel']; [lia | ]. cbn [keys_get_event_loop].
  destruct (event_iter m <? event_count m); [ | done].
  destruct (array_get _ _) as [r | ]; [ | done].
  destruct (type r =? EV_KEY).
  - destruct (current_event_ptr d); [ | done].
    destruct (heap _ !! _); [ | done].
    by destruct (lookup_key _ _ _ _).
  - apply IH. lia.
Qed.

(** X4. From a state between two calls, [keys_get_event] never reads
    outside [raw_events], never goes through a NULL slot and never writes
    to a block that is not live: whatever the operating system does and
    however long the call is let run, it is not undefined. *)
Theorem keys_get_event_never_undefined (fuel : nat) (d : keys_device_t)
    (e : option ptr) (m : machine) :
  Inv d m → keys_get_event os fuel (Some d) e m ≠ Undefined.
Proof.
  intros HInv. rewrite keys_get_event_refill.
  pose proof (refill_no_fault fuel d m (inv_length d m HInv)) as [Hr _].
  destruct (refill os fuel d m) as [[d2 m2] | | | ] eqn:E2; cbn [bind];
    try done.
  apply refill_returned in E2 as (got & []); [ | done]. rewrite rf_slot0.
  unfold keys_event_create, calloc_event. rewrite rf_heap0.
  destruct (calloc_script os (callocs_done m2)); cbn [bind]; [ | done].
  set (p := fresh (dom (heap m))). set (m3 := set_heap _ _).
  destruct (keys_get_event_loop fuel _ e m3) as [[[d4 e4] m4] | | | ] eqn:E4;
    cbn [bind]; try done.
  - exfalso.
    apply (keys_get_event_loop_fault_mono _
             (fuel + S (length (unread m3)))) in E4; [ | lia].
    rewrite (keys_get_event_loop_finds _ _ e m3 p
               (set_parent_type NYX_EVENT_KEYS zero_event)) in E4.
    + by destruct (list_find is_key (unread m3)) as [[i r] | ].
    + subst m3. cbn. destruct HInv. lia.
    + done.
    + done.
    + subst m3. cbn. by rewrite alter_insert_eq, lookup_insert_eq.
    + lia.
Qed.

(** X3. A call that has to read and finds the descriptor readable does
    not return while every read is interrupted or brings 0 bytes: the
    loop of [read_input_event] leaves only on data or on another error. *)
Theorem keys_get_event_starved (fuel : nat) (d : keys_device_t)
    (e : option ptr) (m : machine) :
  event_iter m = 0 →
  0 < ret_val (poll_script os (polls_done m)) →
  Z.land (revents (poll_script os (polls_done m))) POLLIN ≠ 0 →
  (∀ j, retried (record_size * MAX_EVENTS)
          (read_script os (reads_done m + j)) = true) →
  keys_get_event os fuel (Some d) e m = OutOfFuel.
Proof.
  intros Hz Hr Hp Hall. rewrite keys_get_event_refill.
  unfold refill, read_input_event, sys_poll. rewrite Hz. cbn [Z.eqb].
  apply Z.leb_gt in Hr as ->. apply Z.eqb_neq in Hp as ->. cbn [negb].
  by rewrite read_loop_starved.
Qed.

(** X8. [read_input_event] stays within the capacity it is given. With
    a buffer of at least [maxEvents] records it stores nothing outside
    the buffer: it is never undefined. When it returns, the count is -1 or
    between 0 and [maxEvents], the buffer keeps its length, the records
    in front of the count are the ones this call logged as read, and from
    the second record behind the count on the buffer is as it was (the
    record right behind the count may hold the bytes of an incomplete
    record). *)
Theorem read_input_event_within_capacity (fuel : nat)
    (buf : list InputEvent_t) (maxEvents : Z) (m : machine) :
  0 <= maxEvents → maxEvents <= Z.of_nat (length buf) →
  read_input_event os fuel (Some buf) maxEvents m ≠ Undefined ∧
  ∀ n b m',
    read_input_event os fuel (Some buf) maxEvents m = Returned (n, b, m') →
    -1 <= n <= maxEvents ∧
    ∃ buf',
      b = Some buf' ∧ length buf' = length buf ∧
      read_log m' = read_log m ++ take (Z.to_nat n) buf' ∧
      drop (S (Z.to_nat n)) buf' = drop (S (Z.to_nat n)) buf.
Proof.
  intros Hmax Hcap. split.
  - unfold read_input_event, sys_poll.
    destruct (ret_val _ <=? 0); [done | ]. destruct (negb _); [ | done].
    by apply read_loop_no_fault.
  - intros n b m' Hcall.
    apply read_input_event_post in Hcall as (got & [] & _).
    destruct rp_buf0 as (buf' & -> & Hlen & Htake & Hdrop).
    split; [lia | ]. exists buf'. split; [done | ]. split; [done | ].
    destruct rp_count0 as [-> | [-> ->]].
    + by rewrite Nat2Z.id, Htake.
    + rewrite app_nil_r in rp_log0. cbn [Z.to_nat take length] in *.
      by rewrite app_nil_r.
Qed.

End Faults.

(** ** The key code table under any preset *)

(** X10. [lookup_key] stores the class only in the custom cases. For a
    code outside the table it returns the class it was given; the key is
    the code when that class is Standard and 0 when it is Custom, the
    shift code included. A custom code gives its identifier whatever the
    preset. The key value is not looked at. *)
Theorem lookup_key_any_preset `{abi : nyx_abi} (d : keys_device_t)
    (keyCode keyValue : Z) (preset : nyx_key_type_t) :
  (∀ k, (keyCode, k) ∈ custom_key_table →
        lookup_key d keyCode keyValue preset
        = (custom_key_value k, NYX_KEY_TYPE_CUSTOM)) ∧
  (keyCode ∉ custom_codes →
   lookup_key d keyCode keyValue preset
   = (match preset with
      | NYX_KEY_TYPE_STANDARD => keyCode
      | NYX_KEY_TYPE_CUSTOM => 0
      end, preset)).
Proof.
  split.
  - unfold custom_key_table. intros k H.
    repeat (apply elem_of_cons in H as [H | H];
            [injection H as -> ->; reflexivity | ]).
    by apply elem_of_nil in H.
  - unfold custom_codes, custom_key_table. cbn [fmap list_fmap fst].
    rewrite !not_elem_of_cons. intros H. unfold lookup_key.
    repeat match goal with
           | |- context [?a =? ?b] =>
               destruct (Z.eqb_spec a b); [exfalso; unfold_keys; lia | ]
           end.
    destruct preset; cbn; [ | done].
    destruct (Z.eqb_spec keyCode KEY_LEFTSHIFT) as [-> | ]; reflexivity.
Qed.

(** ** What holds in every state a caller can reach *)

Section Reachable.
Context `{abi : nyx_abi}.
Variable os : os_script.

Lemma serve_held (fuel : nat) (r : request) (s s' : session) :
  Inv (dev s) (mach s) →
  NoDup (held s) → (∀ p, p ∈ held s → is_Some (heap (mach s) !! p)) →
  serve os fuel r s = Returned s' →
  NoDup (held s') ∧ (∀ p, p ∈ held s' → is_Some (heap (mach s') !! p)).
Proof.
  intros HInv Hnd Hlive. unfold serve. destruct r as [ | e].
  - destruct (keys_get_event os fuel _ None _) as [[[[err d'] e'] m'] | | | ]
      eqn:Hcall; cbn [bind]; try done.
    destruct (keys_get_event_new_block os _ _ _ _ _ _ _ _ HInv Hcall)
      as (p & ev & Hp & Hheap & _ & Hwhere).
    assert (∀ q, q ∈ held s → is_Some (heap m' !! q)) as Hold.
    { intros q Hq. rewrite Hheap, lookup_insert_ne; [by apply Hlive | ].
      intros ->. apply Hp, elem_of_dom. by apply Hlive. }
    destruct Hwhere as [[-> _] | [-> _]].
    + assert (heap m' !! p = Some ev) as Hpe
        by (rewrite Hheap; apply lookup_insert_eq).
      rewrite Hpe. intros [= <-]. cbn. split.
      * apply NoDup_app. split; [done | ]. split; [ | apply NoDup_singleton].
        intros q Hq ->%list_elem_of_singleton.
        apply Hp, elem_of_dom. by apply Hlive.
      * intros q [Hq | ->%list_elem_of_singleton]%elem_of_app.
        -- by apply Hold.
        -- rewrite Hpe. by eexists.
    + intros [= <-]. by cbn.
  - unfold keys_release_event. destruct e as [a | ]; cbn [bind].
    + destruct (heap (mach s) !! a) eqn:Ha; cbn [bind]; [ | done].
      intros [= <-]. cbn. split; [by apply NoDup_filter | ].
      intros q [Hqa Hq]%list_elem_of_filter.
      rewrite lookup_delete_ne by done. by apply Hlive.
    + by intros [= <-].
Qed.

Lemma run_held (fuel : nat) (rs : list request) (s s' : session) :
  Inv (dev s) (mach s) → fifo s →
  NoDup (held s) → (∀ p, p ∈ held s → is_Some (heap (mach s) !! p)) →
  run os fuel rs s = Returned s' →
  NoDup (held s') ∧ (∀ p, p ∈ held s' → is_Some (heap (mach s') !! p)).
Proof.
  revert s. induction rs as [ | r rs IH]; intros s HInv Hfifo Hnd Hlive; cbn.
  - by intros [= <-].
  - destruct (serve os fuel r s) as [s1 | | | ] eqn:E; cbn [bind]; try done.
    destruct (serve_fifo os _ _ _ _ HInv Hfifo E) as [HInv1 Hfifo1].
    destruct (serve_held _ _ _ _ HInv Hnd Hlive E) as [Hnd1 Hlive1].
    by apply IH.
Qed.

(** X5. The events a caller holds stay valid: in every state reached by
    calls of [keys_get_event] and [keys_release_event] from program
    start, the events handed out and not released by the caller are
    pairwise distinct blocks and all of them are live; the module itself
    never frees an event or hands one out twice. *)
Theorem held_events_live (fuel : nat) (rs : list request) (s : session) :
  run os fuel rs session_init = Returned s →
  NoDup (held s) ∧ ∀ p, p ∈ held s → is_Some (heap (mach s) !! p).
Proof.
  intros Hrun.
  apply (run_held fuel rs session_init s Inv_init eq_refl); [ | | done].
  - apply NoDup_nil_2.
  - intros p Hp. by apply elem_of_nil in Hp.
Qed.


(** X13. An event the caller holds can be released exactly once: in every
    state a caller can reach, the release of a held event returns and
    frees that block and no other, the other held events stay held, and a
    second release of the same pointer is a double free. *)
Theorem held_event_released_once (fuel : nat) (rs : list request)
    (s : session) (p : ptr) :
  run os fuel rs session_init = Returned s → p ∈ held s →
  ∃ s',
    serve os fuel (Release (Some p)) s = Returned s' ∧
    heap (mach s') = delete p (heap (mach s)) ∧
    (∀ q, q ∈ held s' ↔ q ∈ held s ∧ q ≠ p) ∧
    serve os fuel (Release (Some p)) s' = Undefined.
Proof.
  intros Hrun Hp.
  destruct (run_held fuel rs session_init s Inv_init eq_refl) as [_ Hlive].
  { apply NoDup_nil_2. }
  { intros q Hq. by apply elem_of_nil in Hq. }
  { done. }
  destruct (Hlive p Hp) as [ev Hev].
  unfold serve, keys_release_event. rewrite Hev. cbn [bind].
  eexists. split; [reflexivity | ]. cbn. split; [done | ]. split.
  - intros q. rewrite list_elem_of_filter. tauto.
  - by rewrite lookup_delete_eq.
Qed.

End Reachable.

(** ** Opening, using and closing a device *)

Section LifecycleFacts.
Context `{abi : nyx_abi}.
Variable os : os_script.
Variable host : keys_host.

(** [Inv] and [pending] look at the three statics and at the slot only. *)
Lemma Inv_statics (d d' : keys_device_t) (m m' : machine) :
  event_iter m' = event_iter m → event_count m' = event_count m →
  raw_events m' = raw_events m →
  (event_iter m ≠ 0 → current_event_ptr d' = None) →
  Inv d m → Inv d' m'.
Proof.
  intros Hi Hc Hr Hs []. split; rewrite ?Hi, ?Hc, ?Hr; try done.
Qed.

Lemma pending_statics (m m' : machine) :
  event_iter m' = event_iter m → event_count m' = event_count m →
  raw_events m' = raw_events m → pending m' = pending m.
Proof. intros Hi Hc Hr. unfold pending, unread. by rewrite Hi, Hc, Hr. Qed.

(** What [init_keypad] leaves alone. *)
Lemma init_keypad_frame (w : module_state) :
  let w' := (init_keypad host w).2 in
  devices w' = devices w ∧ methods w' = methods w ∧
  heap (core w') = heap (core w) ∧
  event_iter (core w') = event_iter (core w) ∧
  event_count (core w') = event_count (core w) ∧
  raw_events (core w') = raw_events (core w) ∧
  polls_done (core w') = polls_done (core w) ∧
  reads_done (core w') = reads_done (core w) ∧
  callocs_done (core w') = callocs_done (core w) ∧
  keypad_event_fd w'
  = match KEYPAD_INPUT_DEVICE host with
    | Some _ => open_script host (opens_done w)
    | None => keypad_event_fd w
    end.
Proof.
  unfold init_keypad. destruct (KEYPAD_INPUT_DEVICE host); [ | done].
  cbn. by destruct (open_script host (opens_done w) <? 0).
Qed.

(** A successful [nyx_module_open]. *)
Lemma nyx_module_open_ok (i : Z) (d d' : option (option ptr))
    (w w' : module_state) :
  nyx_module_open os host i d w = (NYX_ERROR_NONE, d', w') →
  let a := fresh (dom (devices w)) in
  calloc_script os (callocs_done (core w)) = true ∧
  d' = Some (Some a) ∧ devices w !! a = None ∧
  devices w' = <[a := device_init]> (devices w) ∧
  heap (core w') = heap (core w) ∧
  event_iter (core w') = event_iter (core w) ∧
  event_count (core w') = event_count (core w) ∧
  raw_events (core w') = raw_events (core w) ∧
  polls_done (core w') = polls_done (core w) ∧
  reads_done (core w') = reads_done (core w).
Proof.
  unfold nyx_module_open, calloc_device. destruct d as [c | ]; [ | done].
  destruct (calloc_script os (callocs_done (core w))); [ | done].
  set (w1 := set_devices _ _).
  pose proof (init_keypad_frame w1) as H. cbv zeta in H.
  destruct (init_keypad host w1) as [r w2]. cbn [snd] in H.
  destruct H as (Hd & _ & Hh & Hi & Hc & Hr & Hp & Hrd & _).
  intros [= <- <-]. cbn.
  rewrite Hd, Hh, Hi, Hc, Hr, Hp, Hrd. subst w1. cbn.
  repeat split; try done.
  apply not_elem_of_dom, is_fresh.
Qed.

(** X11. A failed [nyx_module_open] leaves the module as it was, up to
    one logged error and the allocation attempt: the caller's cell, the
    devices, the events, the descriptor and the registered methods are
    untouched, and [open] was not called. It fails in two cases only: a
    NULL cell (invalid value) and a failed allocation (out of memory). *)
Theorem nyx_module_open_failure (i : Z) (d d' : option (option ptr))
    (w w' : module_state) (err : nyx_error_t) :
  nyx_module_open os host i d w = (err, d', w') → err ≠ NYX_ERROR_NONE →
  d' = d ∧ devices w' = devices w ∧ heap (core w') = heap (core w) ∧
  keypad_event_fd w' = keypad_event_fd w ∧ opens_done w' = opens_done w ∧
  methods w' = methods w ∧ nyx_errors (core w') = S (nyx_errors (core w)) ∧
  (d = None ∧ err = NYX_ERROR_INVALID_VALUE ∨
   is_Some d ∧ calloc_script os (callocs_done (core w)) = false ∧
   err = NYX_ERROR_OUT_OF_MEMORY).
Proof.
  unfold nyx_module_open, calloc_device. destruct d as [c | ].
  - destruct (calloc_script os (callocs_done (core w))).
    + destruct (init_keypad host _) as [r w2]. by intros [= <- <- <-].
    + intros [= <- <- <-] _. cbn. repeat split; try done.
      right. split; [by eexists | done].
  - intros [= <- <- <-] _. cbn. repeat split; try done. by left.
Qed.

(** X12. [nyx_module_open] succeeds whenever the device block can be
    allocated: the result of [init_keypad] is dropped. The new device has
    an empty slot and the three methods registered under their names, and
    [keys_get_event_source] then gives NYX_ERROR_NONE with whatever
    [keypad_event_fd] holds: the value [open] returned, be it -1, or the
    old value of the global when no device path is configured. *)
Theorem nyx_module_open_descriptor (i : Z) (c : option ptr)
    (w : module_state) :
  calloc_script os (callocs_done (core w)) = true →
  ∃ a w',
    nyx_module_open os host i (Some c) w
    = (NYX_ERROR_NONE, Some (Some a), w') ∧
    devices w !! a = None ∧
    devices w' = <[a := device_init]> (devices w) ∧
    methods w'
    = methods w ++
      [(i, a, NYX_GET_EVENT_SOURCE_MODULE_METHOD, "keys_get_event_source");
       (i, a, NYX_GET_EVENT_MODULE_METHOD, "keys_get_event");
       (i, a, NYX_RELEASE_EVENT_MODULE_METHOD, "keys_release_event")] ∧
    keypad_event_fd w'
    = match KEYPAD_INPUT_DEVICE host with
      | Some _ => open_script host (opens_done w)
      | None => keypad_event_fd w
      end ∧
    ∀ f, keys_get_event_source (Some a) (Some f) w'
         = (NYX_ERROR_NONE, Some (keypad_event_fd w')).
Proof.
  intros Hc. unfold nyx_module_open, calloc_device. rewrite Hc.
  set (a := fresh (dom (devices w))). set (w1 := set_devices _ _).
  pose proof (init_keypad_frame w1) as H. cbv zeta in H.
  destruct (init_keypad host w1) as [r w2]. cbn [snd] in H.
  destruct H as (Hd & Hm & _ & _ & _ & _ & _ & _ & _ & Hfd).
  eexists a, _. split; [reflexivity | ]. cbn.
  rewrite Hd, Hm, Hfd. subst w1. cbn.
  split; [apply not_elem_of_dom, is_fresh | ]. split; [done | ].
  split; [by rewrite <- !app_assoc | done].
Qed.

(** X14. Opening a device, asking it for one event, releasing what came
    back and closing the device leaves no block behind: the events and
    the devices on the heap are those from before the open, whether the
    call delivered an event (freed by the release) or not (its block is
    in the slot and freed by the close). *)
Theorem open_get_release_close (i : Z) (c : option ptr) (fuel : nat)
    (a : ptr) (e2 : option ptr) (w w1 w2 w3 : module_state)
    (err2 err3 : nyx_error_t) :
  Inv device_init (core w) →
  nyx_module_open os host i (Some c) w
  = (NYX_ERROR_NONE, Some (Some a), w1) →
  get_event os fuel (Some a) None w1 = Returned (err2, e2, w2) →
  release_event (Some a) e2 w2 = Returned (err3, w3) →
  ∃ w4,
    nyx_module_close (Some a) w3 = Returned (NYX_ERROR_NONE, w4) ∧
    heap (core w4) = heap (core w) ∧ devices w4 = devices w.
Proof.
  intros HInv Hopen Hget Hrel.
  apply nyx_module_open_ok in Hopen. cbv zeta in Hopen.
  destruct Hopen as (_ & [= ->] & Hfresh & Hdev & Hh & Hi & Hc & Hr & _).
  set (a := fresh (dom (devices w))) in *.
  assert (Inv device_init (core w1)) as HInv1
    by (by apply (Inv_statics device_init device_init (core w))).
  unfold get_event in Hget. rewrite Hdev, lookup_insert_eq in Hget.
  destruct (keys_get_event os fuel _ None (core w1))
    as [[[[err d'] e'] m'] | | | ] eqn:Hcall; cbn [bind] in Hget; try done.
  injection Hget as <- <- <-.
  destruct (keys_get_event_new_block os _ _ _ _ _ _ _ _ HInv1 Hcall)
    as (p & ev & Hp & Hheap & _ & Hwhere).
  assert (delete p (heap m') = heap (core w)) as Hback.
  { rewrite Hheap, delete_insert_id, Hh; [done | by apply not_elem_of_dom]. }
  assert (heap m' !! p = Some ev) as Hpe
    by (rewrite Hheap; apply lookup_insert_eq).
  assert (delete a (<[a := d']> (<[a := device_init]> (devices w)))
          = devices w) as Hdevs
    by (by rewrite insert_insert_eq, delete_insert_id).
  unfold release_event, keys_release_event in Hrel. cbn in Hrel.
  unfold nyx_module_close.
  destruct Hwhere as [[-> Hslot] | [-> Hslot]].
  - rewrite Hpe in Hrel. cbn [bind] in Hrel. injection Hrel as <- <-.
    cbn. rewrite lookup_insert_eq, Hslot. cbn [bind].
    eexists. split; [reflexivity | ]. cbn. by rewrite Hback.
  - injection Hrel as <- <-. cbn. rewrite lookup_insert_eq, Hslot.
    unfold keys_release_event. cbn. rewrite Hpe. cbn [bind].
    eexists. split; [reflexivity | ]. cbn. by rewrite Hback.
Qed.

(** X15. The batch outlives the device. When a device is closed while a
    key record of the current batch has not been visited and a device is
    opened afterwards, the first call on the new device delivers that
    record's event without a poll or a read: the buffer, the count and the
    cursor are statics of [keys_get_event] and belong to no device. *)
Theorem reopened_device_continues_batch (i : Z) (c : option ptr)
    (fuel : nat) (a a2 : ptr) (dev : keys_device_t) (e3 : option ptr)
    (r : InputEvent_t) (rest : list InputEvent_t)
    (w w1 w2 w3 : module_state) (err1 err3 : nyx_error_t) :
  devices w !! a = Some dev → Inv dev (core w) →
  pending (core w) = r :: rest → type r = EV_KEY →
  nyx_module_close (Some a) w = Returned (err1, w1) →
  nyx_module_open os host i (Some c) w1
  = (NYX_ERROR_NONE, Some (Some a2), w2) →
  get_event os fuel (Some a2) None w2 = Returned (err3, e3, w3) →
  ∃ p,
    e3 = Some p ∧ heap (core w3) !! p = Some (event_of r) ∧
    pending (core w3) = rest ∧
    polls_done (core w3) = polls_done (core w) ∧
    reads_done (core w3) = reads_done (core w).
Proof.
  intros Hdev HInv Hpend Hkey Hclose Hopen Hget.
  assert (event_iter (core w) ≠ 0) as Hnz.
  { intros Hz. unfold pending in Hpend. by rewrite Hz in Hpend. }
  assert (current_event_ptr dev = None) as Hslot
    by (destruct HInv; by apply inv_slot0).
  unfold nyx_module_close in Hclose. rewrite Hdev, Hslot in Hclose.
  cbn [bind] in Hclose. injection Hclose as <- <-.
  apply nyx_module_open_ok in Hopen. cbv zeta in Hopen.
  destruct Hopen as (_ & [= ->] & _ & Hdev2 & _ & Hi & Hc & Hr & Hp & Hrd).
  cbn in Hi, Hc, Hr, Hp, Hrd.
  assert (Inv device_init (core w2)) as HInv2
    by (by apply (Inv_statics dev device_init (core w))).
  unfold get_event in Hget. rewrite Hdev2, lookup_insert_eq in Hget.
  destruct (keys_get_event os fuel _ None (core w2))
    as [[[[err d'] e'] m'] | | | ] eqn:Hcall; cbn [bind] in Hget; try done.
  injection Hget as <- <- <-. cbn.
  destruct (keys_get_event_post os _ _ _ _ _ _ _ _ HInv2 Hcall)
    as (_ & _ & got & d2 & m2 & [] & _ & _).
  destruct gp_iterating0 as (-> & Hpolls & Hreads); [congruence | ].
  cbn zeta in gp_event0.
  rewrite app_nil_r, (pending_statics (core w) (core w2)), Hpend
    in gp_event0 by done.
  cbn [list_find] in gp_event0. rewrite decide_True in gp_event0 by done.
  destruct gp_event0 as (-> & _ & Hheap & Hpend').
  eexists. split; [done | ]. rewrite Hheap, lookup_insert_eq.
  split; [done | ]. split; [done | ]. split; congruence.
Qed.

(** X16. What [nyx_module_close] frees and what it leaves: the device
    block and the event in its slot are freed and nothing else; the
    descriptor is neither closed nor reset, the three methods stay
    registered for the freed device, and the batch and the cursor stay.
    The handle is dead afterwards: a call or a second close through it is
    undefined. *)
Theorem nyx_module_close_frame (a : ptr) (w w' : module_state)
    (err : nyx_error_t) :
  nyx_module_close (Some a) w = Returned (err, w') →
  err = NYX_ERROR_NONE ∧
  ∃ keys_device,
    devices w !! a = Some keys_device ∧
    devices w' = delete a (devices w) ∧
    heap (core w')
    = match current_event_ptr keys_device with
      | Some p => delete p (heap (core w))
      | None => heap (core w)
      end ∧
    keypad_event_fd w' = keypad_event_fd w ∧ opens_done w' = opens_done w ∧
    methods w' = methods w ∧
    event_iter (core w') = event_iter (core w) ∧
    event_count (core w') = event_count (core w) ∧
    raw_events (core w') = raw_events (core w) ∧
    (∀ fuel e, get_event os fuel (Some a) e w' = Undefined) ∧
    nyx_module_close (Some a) w' = Undefined.
Proof.
  unfold nyx_module_close at 1.
  destruct (devices w !! a) as [kd | ] eqn:Hd; [ | done].
  destruct (current_event_ptr kd) as [p | ] eqn:Hs.
  - unfold keys_release_event.
    destruct (heap (core w) !! p); cbn [bind]; [ | done].
    intros [= <- <-]. split; [done | ]. exists kd. rewrite Hs.
    unfold get_event, nyx_module_close. cbn. by rewrite lookup_delete_eq.
  - cbn [bind]. intros [= <- <-]. split; [done | ]. exists kd. rewrite Hs.
    unfold get_event, nyx_module_close. cbn. by rewrite lookup_delete_eq.
Qed.

End LifecycleFacts.

(** ** The further properties at concrete inputs *)


Lemma first_call_idle :
  keys_get_event (abi := sample_abi) os_idle 1 (Some device_init) None
    machine_init
  = Returned (NYX_ERROR_NONE, idle_device_1, None, idle_machine_1).
Proof. vm_compute. reflexivity. Qed.

Lemma second_call_idle :
  keys_get_event (abi := sample_abi) os_idle 1 (Some idle_device_1) None
    idle_machine_1
  = Returned (NYX_ERROR_NONE, idle_device_2, None, idle_machine_2).
Proof. vm_compute. reflexivity. Qed.

Lemma first_call_key_syn :
  keys_get_event (abi := sample_abi) os_key_syn 5 (Some device_init) None
    machine_init
  = Returned (NYX_ERROR_NONE, key_syn_device_1, Some 1%positive,
              key_syn_machine_1).
Proof. vm_compute. reflexivity. Qed.

Lemma second_call_key_syn :
  keys_get_event (abi := sample_abi) os_key_syn 5 (Some key_syn_device_1)
    None key_syn_machine_1
  = Returned (NYX_ERROR_NONE, key_syn_device_2, None, key_syn_machine_2).
Proof. vm_compute. reflexivity. Qed.

Lemma run_two_batches :
  run (abi := sample_abi) os_two_batches 5
    [Get; Get; Release (Some 1%positive); Get; Get] session_init
  = Returned two_batches_session.
Proof. vm_compute. reflexivity. Qed.

Lemma end_of_file_retried (j : nat) :
  retried (abi := sample_abi) (record_size * MAX_EVENTS)
    (read_script os_end_of_file (reads_done machine_init + j)) = true.
Proof. cbn. by destruct j. Qed.


(** X2 at two calls on a source that is never ready. *)
Lemma keys_get_event_loses_idle_block_witness :
  Inv device_init machine_init ∧
  keys_get_event (abi := sample_abi) os_idle 1 (Some device_init) None
    machine_init
  = Returned (NYX_ERROR_NONE, idle_device_1, None, idle_machine_1) ∧
  keys_get_event (abi := sample_abi) os_idle 1 (Some idle_device_1) None
    idle_machine_1
  = Returned (NYX_ERROR_NONE, idle_device_2, None, idle_machine_2) ∧
  ∃ p,
    current_event_ptr idle_device_1 = Some p ∧
    (p ∉ dom (heap machine_init)) ∧
    is_Some (heap idle_machine_2 !! p) ∧
    current_event_ptr idle_device_2 ≠ Some p ∧ None ≠ Some p.
Proof.
  split; [exact Inv_init | ]. split; [exact first_call_idle | ].
  split; [exact second_call_idle | ].
  exact (keys_get_event_loses_idle_block (abi := sample_abi) os_idle 1 1
           device_init idle_device_1 idle_device_2 machine_init
           idle_machine_1 idle_machine_2 None NYX_ERROR_NONE NYX_ERROR_NONE
           Inv_init first_call_idle second_call_idle).
Defined.

(** The two blocks of those two calls, as computed: both are live and
    only the second is in the slot. *)
Example idle_blocks :
  current_event_ptr idle_device_1 = Some 1%positive ∧
  current_event_ptr idle_device_2 = Some 2%positive ∧
  size (heap idle_machine_2) = 2%nat.
Proof. vm_compute. done. Qed.

(** X3 on a descriptor that is readable at end of file. *)
Lemma keys_get_event_starved_witness :
  event_iter machine_init = 0 ∧
  0 < ret_val (poll_script os_end_of_file (polls_done machine_init)) ∧
  Z.land (revents (poll_script os_end_of_file (polls_done machine_init)))
    POLLIN ≠ 0 ∧
  (∀ j, retried (abi := sample_abi) (record_size * MAX_EVENTS)
          (read_script os_end_of_file (reads_done machine_init + j))
        = true) ∧
  keys_get_event (abi := sample_abi) os_end_of_file 1000 (Some device_init)
    None machine_init = OutOfFuel.
Proof.
  assert (0 < ret_val (poll_script os_end_of_file (polls_done machine_init)))
    as Hready by reflexivity.
  assert (Z.land (revents (poll_script os_end_of_file
                             (polls_done machine_init))) POLLIN ≠ 0)
    as Hin by discriminate.
  split; [reflexivity | ]. split; [exact Hready | ]. split; [exact Hin | ].
  split; [exact end_of_file_retried | ].
  exact (keys_get_event_starved (abi := sample_abi) os_end_of_file 1000
           device_init None machine_init eq_refl Hready Hin
           end_of_file_retried).
Defined.

(** X4 at a call whose read fails and whose allocation fails: it aborts,
    which is not undefined. *)
Lemma keys_get_event_never_undefined_witness :
  Inv device_init machine_init ∧
  keys_get_event (abi := sample_abi) os_read_error_no_memory 5
    (Some device_init) None machine_init ≠ Undefined.
Proof.
  split; [exact Inv_init | ].
  exact (keys_get_event_never_undefined (abi := sample_abi)
           os_read_error_no_memory 5 device_init None machine_init Inv_init).
Defined.

(** X5 at two batches with a release in between. *)
Lemma held_events_live_witness :
  run (abi := sample_abi) os_two_batches 5
    [Get; Get; Release (Some 1%positive); Get; Get] session_init
  = Returned two_batches_session ∧
  NoDup (held two_batches_session) ∧
  ∀ p, p ∈ held two_batches_session →
       is_Some (heap (mach two_batches_session) !! p).
Proof.
  split; [exact run_two_batches | ].
  exact (held_events_live (abi := sample_abi) os_two_batches 5
           [Get; Get; Release (Some 1%positive); Get; Get]
           two_batches_session run_two_batches).
Defined.

(** The events held at the end of that run, as computed; block 3 is the
    one the third call left in the slot. *)
Example two_batches_held :
  held two_batches_session = [2%positive; 4%positive].
Proof. vm_compute. reflexivity. Qed.



(** X8 at a read of one record and 7 bytes more into the 64 zeroed
    records of [raw_events], after an interrupted read. *)
Lemma read_input_event_within_capacity_witness :
  let buf := raw_events machine_init in
  let call :=
    read_input_event (abi := sample_abi) os_interrupted 2 (Some buf)
      MAX_EVENTS machine_init in
  0 <= MAX_EVENTS ∧ MAX_EVENTS <= Z.of_nat (length buf) ∧
  call ≠ Undefined ∧
  ∀ n b m',
    call = Returned (n, b, m') →
    -1 <= n <= MAX_EVENTS ∧
    ∃ buf',
      b = Some buf' ∧ length buf' = length buf ∧
      read_log m' = read_log machine_init ++ take (Z.to_nat n) buf' ∧
      drop (S (Z.to_nat n)) buf' = drop (S (Z.to_nat n)) buf.
Proof.
  cbv zeta.
  assert (0 <= MAX_EVENTS) as Hmax by discriminate.
  assert (MAX_EVENTS <= Z.of_nat (length (raw_events machine_init)))
    as Hcap by (vm_compute; discriminate).
  split; [exact Hmax | ]. split; [exact Hcap | ].
  exact (read_input_event_within_capacity (abi := sample_abi) os_interrupted
           2 (raw_events machine_init) MAX_EVENTS machine_init Hmax Hcap).
Defined.

(** That read into a buffer of two records, as computed: the count is 1
    and the seven bytes left over change the second record. *)
Example read_interrupted_torn :
  read_input_event (abi := sample_abi) os_interrupted 2
    (Some [syn_record; syn_record]) MAX_EVENTS machine_init
  = Returned (1, Some [key_record KEY_VOLUMEUP 1; torn_time 1 syn_record],
              interrupted_machine).
Proof. vm_compute. reflexivity. Qed.

(** A read of more bytes than the buffer holds is undefined. *)
Example read_overflows :
  read_input_event (abi := sample_abi) os_volume 1 (Some [syn_record])
    MAX_EVENTS machine_init = Undefined.
Proof. vm_compute. reflexivity. Qed.

(** X9 at the call after a key record was delivered, with its
    synchronisation report left in the batch. *)
Lemma keys_get_event_trailing_records_witness :
  Inv key_syn_device_1 key_syn_machine_1 ∧
  event_iter key_syn_machine_1 ≠ 0 ∧
  Forall (λ r, type r ≠ EV_KEY) (pending key_syn_machine_1) ∧
  keys_get_event (abi := sample_abi) os_key_syn 5 (Some key_syn_device_1)
    None key_syn_machine_1
  = Returned (NYX_ERROR_NONE, key_syn_device_2, None, key_syn_machine_2) ∧
  @None ptr = None ∧ event_iter key_syn_machine_2 = 0 ∧
  polls_done key_syn_machine_2 = polls_done key_syn_machine_1 ∧
  reads_done key_syn_machine_2 = reads_done key_syn_machine_1 ∧
  read_log key_syn_machine_2 = read_log key_syn_machine_1.
Proof.
  pose proof (keys_get_event_Inv (abi := sample_abi) os_key_syn 5
                device_init key_syn_device_1 None (Some 1%positive)
                machine_init key_syn_machine_1 NYX_ERROR_NONE Inv_init
                first_call_key_syn) as HInv.
  assert (event_iter key_syn_machine_1 ≠ 0) as Hnz by discriminate.
  assert (Forall (λ r, type r ≠ EV_KEY) (pending key_syn_machine_1))
    as Htail by (repeat constructor; discriminate).
  split; [exact HInv | ]. split; [exact Hnz | ]. split; [exact Htail | ].
  split; [exact second_call_key_syn | ].
  exact (keys_get_event_trailing_records (abi := sample_abi) os_key_syn 5
           key_syn_device_1 key_syn_device_2 None None key_syn_machine_1
           key_syn_machine_2 NYX_ERROR_NONE HInv Hnz Htail
           second_call_key_syn).
Defined.

(** X10 at a custom code with the preset Custom, and at KEY_A and the
    shift code under that preset. *)
Example lookup_key_any_preset_custom :
  lookup_key (abi := sample_abi) device_init KEY_HOME 0 NYX_KEY_TYPE_CUSTOM
  = (1001, NYX_KEY_TYPE_CUSTOM) ∧
  lookup_key (abi := sample_abi) device_init 30 1 NYX_KEY_TYPE_CUSTOM
  = (0, NYX_KEY_TYPE_CUSTOM) ∧
  lookup_key (abi := sample_abi) device_init KEY_LEFTSHIFT 1
    NYX_KEY_TYPE_CUSTOM = (0, NYX_KEY_TYPE_CUSTOM).
Proof. vm_compute. done. Qed.

(** The module calls at concrete inputs. *)
Lemma open_no_memory :
  nyx_module_open os_no_memory host_event 1 (Some None) module_init
  = (NYX_ERROR_OUT_OF_MEMORY, Some None, no_memory_module).
Proof. vm_compute. reflexivity. Qed.

Lemma open_volume :
  nyx_module_open os_volume host_event 1 (Some None) module_init
  = (NYX_ERROR_NONE, Some (Some 1%positive), volume_opened).
Proof. vm_compute. reflexivity. Qed.

Lemma get_volume :
  get_event (abi := sample_abi) os_volume 5 (Some 1%positive) None
    volume_opened
  = Returned (NYX_ERROR_NONE, Some 1%positive, volume_asked).
Proof. vm_compute. reflexivity. Qed.

Lemma release_volume :
  release_event (Some 1%positive) (Some 1%positive) volume_asked
  = Returned (NYX_ERROR_NONE, volume_released).
Proof. vm_compute. reflexivity. Qed.

Lemma close_volume :
  nyx_module_close (Some 1%positive) volume_asked
  = Returned (NYX_ERROR_NONE, volume_closed).
Proof. vm_compute. reflexivity. Qed.

Lemma reopen_volume :
  nyx_module_open os_volume host_event 2 (Some None) volume_closed
  = (NYX_ERROR_NONE, Some (Some 1%positive), volume_reopened).
Proof. vm_compute. reflexivity. Qed.

Lemma get_volume_again :
  get_event (abi := sample_abi) os_volume 5 (Some 1%positive) None
    volume_reopened
  = Returned (NYX_ERROR_NONE, Some 2%positive, volume_continued).
Proof. vm_compute. reflexivity. Qed.

Lemma Inv_volume_asked :
  Inv {| current_event_ptr := None |} (core volume_asked).
Proof. split; vm_compute; done. Qed.

(** X11 at an open that finds no memory for the device. *)
Lemma nyx_module_open_failure_witness :
  nyx_module_open os_no_memory host_event 1 (Some None) module_init
  = (NYX_ERROR_OUT_OF_MEMORY, Some None, no_memory_module) ∧
  NYX_ERROR_OUT_OF_MEMORY ≠ NYX_ERROR_NONE ∧
  Some (@None ptr) = Some None ∧
  devices no_memory_module = devices module_init ∧
  heap (core no_memory_module) = heap (core module_init) ∧
  keypad_event_fd no_memory_module = keypad_event_fd module_init ∧
  opens_done no_memory_module = opens_done module_init ∧
  methods no_memory_module = methods module_init ∧
  nyx_errors (core no_memory_module) = S (nyx_errors (core module_init)) ∧
  (Some (@None ptr) = None ∧
   NYX_ERROR_OUT_OF_MEMORY = NYX_ERROR_INVALID_VALUE ∨
   is_Some (Some (@None ptr)) ∧
   calloc_script os_no_memory (callocs_done (core module_init)) = false ∧
   NYX_ERROR_OUT_OF_MEMORY = NYX_ERROR_OUT_OF_MEMORY).
Proof.
  assert (NYX_ERROR_OUT_OF_MEMORY ≠ NYX_ERROR_NONE) as Herr by discriminate.
  split; [exact open_no_memory | ]. split; [exact Herr | ].
  exact (nyx_module_open_failure os_no_memory host_event 1 (Some None)
           (Some None) module_init no_memory_module NYX_ERROR_OUT_OF_MEMORY
           open_no_memory Herr).
Defined.

(** X12 on a host whose [open] fails: the open of the module succeeds and
    the event source is -1. *)
Lemma nyx_module_open_descriptor_witness :
  calloc_script os_idle (callocs_done (core module_init)) = true ∧
  ∃ a w',
    nyx_module_open os_idle host_missing 1 (Some None) module_init
    = (NYX_ERROR_NONE, Some (Some a), w') ∧
    devices module_init !! a = None ∧
    devices w' = <[a := device_init]> (devices module_init) ∧
    methods w'
    = methods module_init ++
      [(1, a, NYX_GET_EVENT_SOURCE_MODULE_METHOD, "keys_get_event_source");
       (1, a, NYX_GET_EVENT_MODULE_METHOD, "keys_get_event");
       (1, a, NYX_RELEASE_EVENT_MODULE_METHOD, "keys_release_event")] ∧
    keypad_event_fd w'
    = match KEYPAD_INPUT_DEVICE host_missing with
      | Some _ => open_script host_missing (opens_done module_init)
      | None => keypad_event_fd module_init
      end ∧
    ∀ f, keys_get_event_source (Some a) (Some f) w'
         = (NYX_ERROR_NONE, Some (keypad_event_fd w')).
Proof.
  split; [reflexivity | ].
  exact (nyx_module_open_descriptor os_idle host_missing 1 None module_init
           eq_refl).
Defined.

(** The event source after that open, as computed. *)
Example event_source_without_device :
  let w := (nyx_module_open os_idle host_missing 1 (Some None) module_init).2
  in
  keys_get_event_source (Some 1%positive) (Some 0) w
  = (NYX_ERROR_NONE, Some (-1)) ∧
  nyx_errors (core w) = 1%nat.
Proof. vm_compute. done. Qed.

(** X14 at scenario A's first event: opened, asked, released, closed. *)
Lemma open_get_release_close_witness :
  Inv device_init (core module_init) ∧
  nyx_module_open os_volume host_event 1 (Some None) module_init
  = (NYX_ERROR_NONE, Some (Some 1%positive), volume_opened) ∧
  get_event (abi := sample_abi) os_volume 5 (Some 1%positive) None
    volume_opened
  = Returned (NYX_ERROR_NONE, Some 1%positive, volume_asked) ∧
  release_event (Some 1%positive) (Some 1%positive) volume_asked
  = Returned (NYX_ERROR_NONE, volume_released) ∧
  ∃ w4,
    nyx_module_close (Some 1%positive) volume_released
    = Returned (NYX_ERROR_NONE, w4) ∧
    heap (core w4) = heap (core module_init) ∧
    devices w4 = devices module_init.
Proof.
  split; [exact Inv_init | ]. split; [exact open_volume | ].
  split; [exact get_volume | ]. split; [exact release_volume | ].
  exact (open_get_release_close (abi := sample_abi) os_volume host_event 1
           None 5 1%positive (Some 1%positive) module_init volume_opened
           volume_asked volume_released NYX_ERROR_NONE NYX_ERROR_NONE
           Inv_init open_volume get_volume release_volume).
Defined.

(** X15 at scenario A: the device is closed after the press was
    delivered, and a device opened afterwards delivers the release. *)
Lemma reopened_device_continues_batch_witness :
  devices volume_asked !! 1%positive = Some {| current_event_ptr := None |} ∧
  Inv {| current_event_ptr := None |} (core volume_asked) ∧
  pending (core volume_asked) = [key_record KEY_VOLUMEUP 0] ∧
  type (key_record KEY_VOLUMEUP 0) = EV_KEY ∧
  nyx_module_close (Some 1%positive) volume_asked
  = Returned (NYX_ERROR_NONE, volume_closed) ∧
  nyx_module_open os_volume host_event 2 (Some None) volume_closed
  = (NYX_ERROR_NONE, Some (Some 1%positive), volume_reopened) ∧
  get_event (abi := sample_abi) os_volume 5 (Some 1%positive) None
    volume_reopened
  = Returned (NYX_ERROR_NONE, Some 2%positive, volume_continued) ∧
  ∃ p,
    Some 2%positive = Some p ∧
    heap (core volume_continued) !! p
    = Some (event_of (abi := sample_abi) (key_record KEY_VOLUMEUP 0)) ∧
    pending (core volume_continued) = [] ∧
    polls_done (core volume_continued) = polls_done (core volume_asked) ∧
    reads_done (core volume_continued) = reads_done (core volume_asked).
Proof.
  assert (devices volume_asked !! 1%positive
          = Some {| current_event_ptr := None |}) as Hdev
    by (vm_compute; reflexivity).
  assert (pending (core volume_asked) = [key_record KEY_VOLUMEUP 0])
    as Hpend by (vm_compute; reflexivity).
  split; [exact Hdev | ]. split; [exact Inv_volume_asked | ].
  split; [exact Hpend | ]. split; [reflexivity | ].
  split; [exact close_volume | ]. split; [exact reopen_volume | ].
  split; [exact get_volume_again | ].
  exact (reopened_device_continues_batch (abi := sample_abi) os_volume
           host_event 2 None 5 1%positive 1%positive
           {| current_event_ptr := None |} (Some 2%positive)
           (key_record KEY_VOLUMEUP 0) [] volume_asked volume_closed
           volume_reopened volume_continued NYX_ERROR_NONE NYX_ERROR_NONE
           Hdev Inv_volume_asked Hpend eq_refl close_volume reopen_volume
           get_volume_again).
Defined.

(** X13 at the run of X5 and its first held event, block 2. *)
Lemma held_event_released_once_witness :
  run (abi := sample_abi) os_two_batches 5
    [Get; Get; Release (Some 1%positive); Get; Get] session_init
  = Returned two_batches_session ∧
  2%positive ∈ held two_batches_session ∧
  ∃ s',
    serve (abi := sample_abi) os_two_batches 5 (Release (Some 2%positive))
      two_batches_session = Returned s' ∧
    heap (mach s') = delete 2%positive (heap (mach two_batches_session)) ∧
    (∀ q, q ∈ held s' ↔ q ∈ held two_batches_session ∧ q ≠ 2%positive) ∧
    serve (abi := sample_abi) os_two_batches 5 (Release (Some 2%positive)) s'
    = Undefined.
Proof.
  assert (2%positive ∈ held two_batches_session) as Hheld
    by (rewrite two_batches_held; apply list_elem_of_here).
  split; [exact run_two_batches | ]. split; [exact Hheld | ].
  exact (held_event_released_once (abi := sample_abi) os_two_batches 5
           [Get; Get; Release (Some 1%positive); Get; Get]
           two_batches_session 2%positive run_two_batches Hheld).
Defined.

(** X16 at the device of scenario A, closed after the press was
    delivered. *)
Lemma nyx_module_close_frame_witness :
  nyx_module_close (Some 1%positive) volume_asked
  = Returned (NYX_ERROR_NONE, volume_closed) ∧
  NYX_ERROR_NONE = NYX_ERROR_NONE ∧
  ∃ keys_device,
    devices volume_asked !! 1%positive = Some keys_device ∧
    devices volume_closed = delete 1%positive (devices volume_asked) ∧
    heap (core volume_closed)
    = match current_event_ptr keys_device with
      | Some p => delete p (heap (core volume_asked))
      | None => heap (core volume_asked)
      end ∧
    keypad_event_fd volume_closed = keypad_event_fd volume_asked ∧
    opens_done volume_closed = opens_done volume_asked ∧
    methods volume_closed = methods volume_asked ∧
    event_iter (core volume_closed) = event_iter (core volume_asked) ∧
    event_count (core volume_closed) = event_count (core volume_asked) ∧
    raw_events (core volume_closed) = raw_events (core volume_asked) ∧
    (∀ fuel e,
       get_event (abi := sample_abi) os_volume fuel (Some 1%positive) e
         volume_closed = Undefined) ∧
    nyx_module_close (Some 1%positive) volume_closed = Undefined.
Proof.
  split; [exact close_volume | ].
  exact (nyx_module_close_frame (abi := sample_abi) os_volume 1%positive
           volume_asked volume_closed NYX_ERROR_NONE close_volume).
Defined.
